(** * tt_downloader: a shallow embedding of [src/index.cjs]

    The development follows the class [TikTokDownloader]:
    - [findBestVideoUrl] (lines 72-168): collection of the candidate video
      sources from the metadata object, the sort by priority, the probe
      loop and the [playAddr] fallback;
    - [tryMultipleDownloads] (lines 203-264): the download attempts derived
      from the chosen source and the size check of every downloaded file;
    - [downloadVideo] (lines 305-361): one streamed download, redirects
      included;
    - the end of [getDownloadAddr] (lines 57-69) and [run] (lines 363-398).

    The claims are stated from the [itemStruct] value found in the page;
    [getVideoId], the search for that value (lines 37-55) and [fetchPage]
    (lines 266-303) come after them.  The parsing of the HTML text is not
    modelled.  The network is an interface ([Network]) that says what a
    probe and a GET request meet: an answer, an error, a URL the [https]
    module refuses, a body that breaks off.  The file system is a finite
    map from paths to file sizes. *)

From Stdlib Require Import ZArith String Ascii List DecimalString DecimalNat Lia.
From Stdlib Require Import Sorting.Sorted Sorting.Permutation.
From stdpp Require Import gmap strings list fin_maps.

Local Open Scope Z_scope.

(** ** JavaScript strings

    A string is a sequence of characters; every pattern the program looks
    for is a literal made of ASCII characters, so matching byte by byte and
    matching UTF-16 unit by unit find the same occurrences. *)

Module JsString.

(** Text after the first [n] characters. *)
Fixpoint skipn (n : nat) (s : string) : string :=
  match n, s with
  | O, _ => s
  | S _, EmptyString => EmptyString
  | S k, String _ s' => skipn k s'
  end.

(** [s.replace(/pat/g, rep)] for a literal, non-empty [pat]: the text is
    scanned from the left; at a position where [pat] starts, [rep] is
    emitted and the scan resumes behind the match ([skip] counts the
    characters of the match still to pass over); elsewhere the character
    is copied. *)
Fixpoint replace_from (pat rep : string) (skip : nat) (s : string) : string :=
  match s with
  | EmptyString => EmptyString
  | String c s' =>
      match skip with
      | S k => replace_from pat rep k s'
      | O =>
          if String.prefix pat s
          then rep +:+ replace_from pat rep (String.length pat - 1) s'
          else String c (replace_from pat rep 0 s')
      end
  end.

Definition replace_all (pat rep s : string) : string :=
  replace_from pat rep 0 s.

(** [s.replace(pat, rep)] with a string pattern: only the first
    occurrence is rewritten. *)
Fixpoint replace_first (pat rep s : string) : string :=
  if String.prefix pat s then rep +:+ skipn (String.length pat) s
  else match s with
       | EmptyString => EmptyString
       | String c s' => String c (replace_first pat rep s')
       end.

(** [s.includes(pat)]. *)
Fixpoint includes (pat s : string) : bool :=
  String.prefix pat s ||
  match s with
  | EmptyString => false
  | String _ s' => includes pat s'
  end.

(** Template-literal rendering of an array index. *)
Definition of_nat (n : nat) : string :=
  NilEmpty.string_of_uint (Nat.to_uint n).

End JsString.

(** ** Values produced by [JSON.parse] *)

#[warnings="-register-all"]
Inductive value : Type :=
  | JNull
  | JBool (b : bool)
  | JNum (n : Z)
  | JStr (s : string)
  | JArr (items : list value)
  | JObj (props : gmap string value).

(** Numbers stand for doubles; the program only tests them for truthiness
    and passes them on, so an integer carrier loses nothing it observes. *)

(** [undefined] is the absence of a value: an expression that may be
    [undefined] has type [option value]. *)
Definition truthy (v : value) : bool :=
  match v with
  | JNull => false
  | JBool b => b
  | JNum n => negb (n =? 0)
  | JStr EmptyString => false
  | JStr (String _ _) => true
  | JArr _ | JObj _ => true
  end.

Definition truthy_opt (o : option value) : bool :=
  match o with
  | Some v => truthy v
  | None => false
  end.

(** ** Exceptions *)

Inductive error : Type :=
  | TypeError
  | Error (message : string).

Inductive res (A : Type) : Type :=
  | OK (a : A)
  | Throw (e : error).
Arguments OK {A} a.
Arguments Throw {A} e.

Definition res_bind {A B} (r : res A) (k : A -> res B) : res B :=
  match r with
  | OK a => k a
  | Throw e => Throw e
  end.

Notation "x <-r e1 ; e2" := (res_bind e1 (fun x => e2))
  (at level 100, e1 at next level, right associativity).

(** The three terminal conditions, with the messages of lines 122, 167
    and 379. *)
Definition NoSourcesFound : error := Error "No video sources found".
Definition NoAccessibleSource : error := Error "No accessible video URLs found".
Definition AllDownloadsFailed : error := Error "All download attempts failed".

(** [o.k]: reading a property of [null] throws; the object owns the keys of
    its map; strings, numbers, booleans and arrays have none of the
    property names the program reads as data ([video], [downloadAddr],
    [playAddrH264], [playAddr], [bitrateInfo], [PlayAddr], [UrlList],
    [QualityType]). *)
Definition get_prop (v : value) (k : string) : res (option value) :=
  match v with
  | JNull => Throw TypeError
  | JObj props => OK (props !! k)
  | _ => OK None
  end.

(** Property of a value already known to be truthy (hence not [null]). *)
Definition prop_of (v : value) (k : string) : option value :=
  match v with
  | JObj props => props !! k
  | _ => None
  end.

(** ** Candidate sources (lines 73-119) *)

Record VideoSource : Type := {
  url : value;
  type : string;
  priority : Z;
  quality : option value
}.

Definition bitrate_type (index urlIndex : nat) : string :=
  "bitrateInfo[" +:+ JsString.of_nat index +:+ "]["
    +:+ JsString.of_nat urlIndex +:+ "]".

(** Lines 78-102: one optional source per address field. *)
Definition field_source (video : value) (field : string) (prio : Z)
  : list VideoSource :=
  match prop_of video field with
  | Some u =>
      if truthy u
      then [ {| url := u; type := field; priority := prio; quality := None |} ]
      else []
  | None => []
  end.

(** Lines 108-115: the inner [forEach] over one entry's [UrlList]. *)
Definition url_sources (index : nat) (q : option value) (urls : list value)
  : list VideoSource :=
  imap (fun urlIndex u =>
          {| url := u; type := bitrate_type index urlIndex;
             priority := 4 + Z.of_nat index; quality := q |}) urls.

(** Lines 107-116: the body of the outer [forEach].  A [null] entry makes
    [bitrate.PlayAddr] throw; a truthy [UrlList] that is not an array has no
    callable [forEach]. *)
Definition bitrate_sources (index : nat) (bitrate : value)
  : res (list VideoSource) :=
  playAddr <-r get_prop bitrate "PlayAddr";
  if truthy_opt playAddr then
    match playAddr with
    | Some pa =>
        match prop_of pa "UrlList" with
        | Some urlList =>
            if truthy urlList then
              match urlList with
              | JArr urls => OK (url_sources index (prop_of bitrate "QualityType") urls)
              | _ => Throw TypeError
              end
            else OK []
        | None => OK []
        end
    | None => OK []
    end
  else OK [].

Fixpoint forEach_bitrate (index : nat) (entries : list value)
  : res (list VideoSource) :=
  match entries with
  | [] => OK []
  | bitrate :: rest =>
      here <-r bitrate_sources index bitrate;
      more <-r forEach_bitrate (S index) rest;
      OK (here ++ more)
  end.

(** Lines 105-118. *)
Definition bitrateInfo_sources (video : value) : res (list VideoSource) :=
  match prop_of video "bitrateInfo" with
  | Some (JArr entries) => forEach_bitrate 0 entries
  | _ => OK []
  end.

(** Lines 73-119: the array [videoSources] when the sort is reached. *)
Definition collect_sources (videoData : value) : res (list VideoSource) :=
  v <-r get_prop videoData "video";
  if truthy_opt v then
    match v with
    | Some video =>
        more <-r bitrateInfo_sources video;
        OK (field_source video "downloadAddr" 1
              ++ field_source video "playAddrH264" 2
              ++ field_source video "playAddr" 3
              ++ more)
    | None => OK []
    end
  else OK [].

(** ** The sort of line 126

    [Array.prototype.sort] with the comparator [a.priority - b.priority] is
    a stable sort by ascending priority.  It is modelled by a stable
    insertion sort; [sort_by_priority_sorted], [sort_by_priority_perm] and
    [sort_by_priority_stable] below pin its result down. *)

Fixpoint insert_by_priority (x : VideoSource) (l : list VideoSource)
  : list VideoSource :=
  match l with
  | [] => [x]
  | y :: l' =>
      if priority x <=? priority y then x :: y :: l'
      else y :: insert_by_priority x l'
  end.

Fixpoint sort_by_priority (l : list VideoSource) : list VideoSource :=
  match l with
  | [] => []
  | x :: l' => insert_by_priority x (sort_by_priority l')
  end.

(** ** The network and the machine state *)

(** What a probe request (lines 183-199) can meet: a response, an
    ['error'] event, the timeout, or [https.request] refusing the URL it is
    given (a string that is no URL, or one of another protocol) by throwing
    at line 183, before any request is made. *)
Inductive probe_event : Type :=
  | ProbeResponse (statusCode : nat)
  | ProbeError
  | ProbeTimeout
  | ProbeInvalidUrl.

(** What the GET of [downloadVideo] (line 326) can meet: a response with
    its status, its [Location] header and the number of bytes its body
    streams to the end; an ['error'] event of the request; [https.get]
    refusing the URL it is given by throwing at line 326; a response of
    status 200 whose body breaks off before its end, so that the file
    stream never finishes. *)
Inductive get_event : Type :=
  | GetResponse (statusCode : nat) (location : option string) (bodySize : N)
  | GetError (message : string)
  | GetInvalidUrl
  | GetBodyCut.

(** The [https] module and the remote side behind it: what a call meets,
    and how the remote side changes while answering. *)
Class Network : Type := {
  World : Type;
  httpsRequest : string -> World -> probe_event * World;
  httpsGet : string -> World -> get_event * World
}.

(** [files] maps a path to the size of the file stored there.  The three
    lists are traces kept for the statements, not program variables:
    [probed] the probes and their answers, [requested] the GET requests
    issued, [started] the attempts begun (line 235); [reported] is what
    [run] writes with [console.error] (line 395). *)
Record state `{Network} : Type := {
  net : World;
  files : gmap string N;
  probed : list (string * bool);
  requested : list string;
  started : list string;
  reported : list error
}.

(** The result of [findBestVideoUrl] (lines 146-150 and 160-164); its
    fields [type] and [priority] are [infoType] and [infoPriority] here. *)
Record VideoInfo : Type := {
  originalUrl : string;
  infoType : string;
  infoPriority : Z
}.

(** An element of [attempts] (lines 204-229); its [url] is [attemptUrl]. *)
Record Attempt : Type := {
  attemptUrl : string;
  name : string;
  suffix : string
}.

(** An element of [results] (lines 247-252). *)
Record DownloadResult : Type := {
  resultType : string;
  path : string;
  size : N;
  resultUrl : string
}.

Definition MIN_VALID_BYTES : N := 1024.

Section Program.
Context `{Network}.

(** *** [testVideoUrl] (lines 170-201) *)

Definition isWorking (statusCode : nat) : bool :=
  ((200 <=? statusCode)%nat && (statusCode <? 300)%nat)
  || ((300 <=? statusCode)%nat && (statusCode <? 400)%nat).

(** The value the promise resolves with: line 186 for a response, lines 191
    and 196 for an error and for the 3000 ms timeout.  A refused URL
    resolves nothing: see [testVideoUrl]. *)
Definition probe_answer (ev : probe_event) : bool :=
  match ev with
  | ProbeResponse statusCode => isWorking statusCode
  | ProbeError => false
  | ProbeTimeout => false
  | ProbeInvalidUrl => false
  end.

(** The promise of [testVideoUrl].  The executor (line 171) has handlers
    for a response, an error and the timeout, each of which resolves; when
    [https.request] throws at line 183 the executor is left by the
    exception and the promise rejects with it. *)
Definition testVideoUrl (u : string) (st : state) : res bool * state :=
  let (ev, w) := httpsRequest u (net st) in
  match ev with
  | ProbeInvalidUrl => (Throw TypeError, st)
  | _ =>
      (OK (probe_answer ev),
       {| net := w; files := files st;
          probed := probed st ++ [(u, probe_answer ev)];
          requested := requested st; started := started st;
          reported := reported st |})
  end.

(** *** [findBestVideoUrl] (lines 72-168) *)

(** [u.replace(/\\u0026/g, '&')]: the regular expression matches the six
    characters backslash, [u], [0], [0], [2], [6]. *)
Definition ESCAPED_AMPERSAND : string := "\u0026".

Definition basicClean (u : string) : string :=
  JsString.replace_all ESCAPED_AMPERSAND "&" u.

(** [source.url.replace(...)]: only a string has a [replace] method. *)
Definition clean_url (u : value) : res string :=
  match u with
  | JStr s => OK (basicClean s)
  | _ => Throw TypeError
  end.

(** Lines 134-154; [None] when the loop ends without a [return].  The
    [await] of line 140 rethrows what [testVideoUrl] rejects with. *)
Fixpoint probe_loop (sources : list VideoSource) (st : state)
  : res (option VideoInfo) * state :=
  match sources with
  | [] => (OK None, st)
  | source :: rest =>
      match clean_url (url source) with
      | Throw e => (Throw e, st)
      | OK basicCleanUrl =>
          match testVideoUrl basicCleanUrl st with
          | (Throw e, st') => (Throw e, st')
          | (OK isAccessible, st') =>
              if isAccessible then
                (OK (Some {| originalUrl := basicCleanUrl;
                             infoType := type source;
                             infoPriority := priority source |}), st')
              else probe_loop rest st'
          end
      end
  end.

(** Lines 157-167. *)
Definition fallback_source (sources : list VideoSource) : res VideoInfo :=
  match List.find (fun s => String.eqb (type s) "playAddr") sources with
  | Some fallback =>
      u <-r clean_url (url fallback);
      OK {| originalUrl := u;
            infoType := "playAddr (fallback)";
            infoPriority := priority fallback |}
  | None => Throw NoAccessibleSource
  end.

(** Lines 121-167: what happens to the collected array. *)
Definition select_source (videoSources : list VideoSource) (st : state)
  : res VideoInfo * state :=
  match videoSources with
  | [] => (Throw NoSourcesFound, st)
  | _ :: _ =>
      let sorted := sort_by_priority videoSources in
      match probe_loop sorted st with
      | (Throw e, st') => (Throw e, st')
      | (OK (Some info), st') => (OK info, st')
      | (OK None, st') => (fallback_source sorted, st')
      end
  end.

Definition findBestVideoUrl (videoData : value) (st : state)
  : res VideoInfo * state :=
  match collect_sources videoData with
  | Throw e => (Throw e, st)
  | OK videoSources => select_source videoSources st
  end.

(** *** The end of [getDownloadAddr] (lines 57-69)

    [videoData] is what the search of lines 37-55 found in the page
    ([None] for [undefined]).  The [catch] of line 66 writes the message
    with [console.error] and returns [null]. *)
Definition report (e : error) (st : state) : state :=
  {| net := net st; files := files st; probed := probed st;
     requested := requested st; started := started st;
     reported := reported st ++ [e] |}.

Definition getDownloadAddr (videoData : option value) (st : state)
  : option VideoInfo * state :=
  if truthy_opt videoData then
    match videoData with
    | Some data =>
        match findBestVideoUrl data st with
        | (OK results, st') => (Some results, st')
        | (Throw e, st') => (None, report e st')
        end
    | None => (None, st)
    end
  else (None, report (Error "Video data not found in JSON") st).

(** *** The attempts of [tryMultipleDownloads] (lines 204-229) *)

Definition plan_attempts (videoInfo : VideoInfo) : list Attempt :=
  [ {| attemptUrl := originalUrl videoInfo;
       name := "Original";
       suffix := "_original" |};
    {| attemptUrl :=
         JsString.replace_all "watermark=1" "watermark=0" (originalUrl videoInfo);
       name := "Watermark Modified";
       suffix := "_no_watermark" |} ]
  ++ (if JsString.includes "watermark=1" (originalUrl videoInfo)
      then [ {| attemptUrl :=
                  JsString.replace_all "logo=1" "logo=0"
                    (JsString.replace_all "watermark=1" "watermark=0"
                       (originalUrl videoInfo));
                name := "Full Parameter Modified";
                suffix := "_full_modified" |} ]
      else []).

(** *** [downloadVideo] (lines 305-361) *)

(** [path.join('./videos', filename)] for a file name without path
    separators. *)
Definition filePath_of (filename : string) : string :=
  "videos/" +:+ filename.

Definition set_files (fs : gmap string N) (st : state) : state :=
  {| net := net st; files := fs; probed := probed st;
     requested := requested st; started := started st;
     reported := reported st |}.

(** [https.get(videoUrl, ...)]. *)
Definition get (videoUrl : string) (st : state) : get_event * state :=
  let (ev, w) := httpsGet videoUrl (net st) in
  (ev,
   {| net := w; files := files st; probed := probed st;
      requested := requested st ++ [videoUrl]; started := started st;
      reported := reported st |}).

Definition is_redirect (statusCode : nat) (location : option string) : bool :=
  (300 <=? statusCode)%nat && (statusCode <? 400)%nat &&
  match location with
  | Some (String _ _) => true
  | _ => false
  end.

Definition status_error (statusCode : nat) : error :=
  Error ("Video download failed with status code " +:+ JsString.of_nat statusCode).

(** The promise of [downloadVideo]: [Some (OK filePath, _)] when it
    resolves, [Some (Throw e, _)] when it rejects, [None] when [fuel]
    requests did not settle it.  [fs.createWriteStream] (line 313) creates
    the file empty (or empties it) before [https.get] is called; the body
    of a 200 response is piped into it; the ['error'] handler of the
    request unlinks it.  When [https.get] throws (line 326) the executor is
    left with the file created and the promise rejects.  Only the request
    has an ['error'] handler (lines 356-359): when the body breaks off,
    ['finish'] never comes and nothing settles the promise. *)
Fixpoint downloadVideo (fuel : nat) (videoUrl filename : string) (st : state)
  : option (res string * state) :=
  match fuel with
  | O => None
  | S fuel' =>
      let filePath := filePath_of filename in
      let st1 := set_files (<[filePath := 0%N]> (files st)) st in
      let (ev, st2) := get videoUrl st1 in
      match ev with
      | GetError message =>
          Some (Throw (Error message), set_files (delete filePath (files st2)) st2)
      | GetInvalidUrl => Some (Throw TypeError, st1)
      | GetBodyCut => None
      | GetResponse statusCode location bodySize =>
          if is_redirect statusCode location then
            match location with
            | Some target => downloadVideo fuel' target filename st2
            | None => None
            end
          else if negb (statusCode =? 200)%nat then
            Some (Throw (status_error statusCode), st2)
          else
            Some (OK filePath, set_files (<[filePath := bodySize]> (files st2)) st2)
      end
  end.

(** *** The loop of [tryMultipleDownloads] (lines 231-263) *)

Definition attemptFilename_of (filename : string) (attempt : Attempt) : string :=
  JsString.replace_first ".mp4" EmptyString filename +:+ suffix attempt +:+ ".mp4".

Definition note_started (n : string) (st : state) : state :=
  {| net := net st; files := files st; probed := probed st;
     requested := requested st; started := started st ++ [n];
     reported := reported st |}.

(** Lines 243-256, once [downloadVideo] has resolved with [filePath]:
    [fs.statSync] throws when the file is missing, which the [catch] of
    line 258 absorbs. *)
Definition check_file (attempt : Attempt) (filePath : string)
    (results : list DownloadResult) (st : state)
  : list DownloadResult * state :=
  match files st !! filePath with
  | None => (results, st)
  | Some sz =>
      if (MIN_VALID_BYTES <? sz)%N then
        (results ++ [ {| resultType := name attempt; path := filePath;
                         size := sz; resultUrl := attemptUrl attempt |} ], st)
      else (results, set_files (delete filePath (files st)) st)
  end.

(** One iteration of the [for] loop (lines 234-260). *)
Definition attempt_once (fuel : nat) (filename : string) (attempt : Attempt)
    (results : list DownloadResult) (st : state)
  : option (list DownloadResult * state) :=
  match downloadVideo fuel (attemptUrl attempt)
          (attemptFilename_of filename attempt) (note_started (name attempt) st) with
  | None => None
  | Some (Throw _, st') => Some (results, st')
  | Some (OK filePath, st') => Some (check_file attempt filePath results st')
  end.

Fixpoint attempt_loop (fuel : nat) (filename : string) (attempts : list Attempt)
    (results : list DownloadResult) (st : state)
  : option (list DownloadResult * state) :=
  match attempts with
  | [] => Some (results, st)
  | attempt :: rest =>
      match attempt_once fuel filename attempt results st with
      | None => None
      | Some (results', st') => attempt_loop fuel filename rest results' st'
      end
  end.

Definition tryMultipleDownloads (fuel : nat) (videoInfo : VideoInfo)
    (filename : string) (st : state)
  : option (list DownloadResult * state) :=
  attempt_loop fuel filename (plan_attempts videoInfo) [] st.

(** *** [run] (lines 363-398)

    The [catch] of line 394 reports the error and returns [null]. *)
Definition run (fuel : nat) (videoData : option value) (videoId : string)
    (st : state) : option (option string * state) :=
  let (videoInfo, st1) := getDownloadAddr videoData st in
  match videoInfo with
  | None => Some (None, report (Error "Failed to get video URLs") st1)
  | Some info =>
      match tryMultipleDownloads fuel info (videoId +:+ ".mp4") st1 with
      | None => None
      | Some ([], st') => Some (None, report AllDownloadsFailed st')
      | Some (_ :: _, st') => Some (Some videoId, st')
      end
  end.

End Program.

(** * Vocabulary of the statements *)

(** ** Strings *)

(** [t] repeats [s] character by character up to a position where it has
    the character [z]. *)
Fixpoint agrees_until (z : ascii) (s t : string) {struct t} : Prop :=
  match t with
  | EmptyString => True
  | String b t' =>
      b = z \/
      match s with
      | EmptyString => False
      | String a s' => a = b /\ agrees_until z s' t'
      end
  end.

(** No character of [p] is [z]. *)
Fixpoint avoids (z : ascii) (p : string) : Prop :=
  match p with
  | EmptyString => True
  | String a p' => a <> z /\ avoids z p'
  end.

(** ** Sources *)

Definition by_priority (a b : VideoSource) : Prop := priority a <= priority b.

Definition has_priority (p : Z) (c : VideoSource) : bool := priority c =? p.

(** The candidate of the data model carries a string as its URL. *)
Definition string_url (c : VideoSource) : bool :=
  match url c with
  | JStr _ => true
  | _ => false
  end.

(** The URL of a candidate as it is probed and returned. *)
Definition cleaned (c : VideoSource) : string :=
  match url c with
  | JStr s => basicClean s
  | _ => EmptyString
  end.

Definition resolved (c : VideoSource) : VideoInfo :=
  {| originalUrl := cleaned c; infoType := type c; infoPriority := priority c |}.

Definition failed_probe (c : VideoSource) : string * bool := (cleaned c, false).

(** The types [findBestVideoUrl] gives to the sources it collects. *)
Definition collected_type (t : string) : Prop :=
  t = "downloadAddr" \/ t = "playAddrH264" \/ t = "playAddr"
  \/ exists i j, t = bitrate_type i j.

Definition FALLBACK_LABEL : string := "playAddr (fallback)".

Definition is_playAddr (s : VideoSource) : bool := String.eqb (type s) "playAddr".

(** The result of the fallback of lines 160-164 for the source [c]. *)
Definition fallen_back (c : VideoSource) : VideoInfo :=
  {| originalUrl := cleaned c; infoType := FALLBACK_LABEL;
     infoPriority := priority c |}.

Definition failed (e : string * bool) : Prop := snd e = false.

(** ** The shape of the metadata *)

(** An entry of [bitrateInfo] the loop of lines 106-117 passes without a
    [TypeError]: not [null], and its [PlayAddr.UrlList], when truthy, an
    array. *)
Definition entry_shaped (bitrate : value) : bool :=
  match bitrate with
  | JNull => false
  | _ =>
      match prop_of bitrate "PlayAddr" with
      | Some pa =>
          if truthy pa then
            match prop_of pa "UrlList" with
            | Some urlList =>
                if truthy urlList then
                  match urlList with
                  | JArr _ => true
                  | _ => false
                  end
                else true
            | None => true
            end
          else true
      | None => true
      end
  end.

Definition video_shaped (video : value) : bool :=
  match prop_of video "bitrateInfo" with
  | Some (JArr entries) => forallb entry_shaped entries
  | _ => true
  end.

(** The mirror URLs of an entry of [bitrateInfo]; none when a field on the
    way is missing. *)
Definition mirrors (bitrate : value) : list value :=
  match prop_of bitrate "PlayAddr" with
  | Some pa =>
      if truthy pa then
        match prop_of pa "UrlList" with
        | Some (JArr urls) => urls
        | _ => []
        end
      else []
  | None => []
  end.

Definition bitrate_entries (video : value) : list value :=
  match prop_of video "bitrateInfo" with
  | Some (JArr entries) => entries
  | _ => []
  end.

(** The field [field] of [video] holds the truthy value [u]. *)
Definition holds (video : value) (field : string) (u : value) : Prop :=
  prop_of video field = Some u /\ truthy u = true.

(** A metadata value without usable [video] block: the field is missing or
    falsy, or none of its four fields yields a URL. *)
Definition lacks_sources (videoData : value) : bool :=
  match videoData with
  | JNull => false
  | _ =>
      match prop_of videoData "video" with
      | None => true
      | Some video =>
          negb (truthy video)
          || (negb (truthy_opt (prop_of video "downloadAddr"))
              && negb (truthy_opt (prop_of video "playAddrH264"))
              && negb (truthy_opt (prop_of video "playAddr"))
              && video_shaped video
              && forallb (fun b => match mirrors b with [] => true | _ => false end)
                   (bitrate_entries video))
      end
  end.

(** ** Results *)

(** What one turn of the loop pushes: nothing, or one record that bears the
    attempt's name and URL and a size above the threshold. *)
Definition pushed_by (attempt : Attempt) (pushed : list DownloadResult) : Prop :=
  pushed = [] \/
  exists r, pushed = [r] /\ resultType r = name attempt
            /\ resultUrl r = attemptUrl attempt
            /\ (MIN_VALID_BYTES < size r)%N.

(** What identifies an attempt in the list of results. *)
Definition result_key (r : DownloadResult) : string * string :=
  (resultType r, resultUrl r).

Definition attempt_key (a : Attempt) : string * string :=
  (name a, attemptUrl a).

Section Vocabulary.
Context `{Network}.

(** ** Probes *)

(** [https.request] refuses the URL: the probe has no answer. *)
Definition refused (ev : probe_event) : bool :=
  match ev with
  | ProbeInvalidUrl => true
  | _ => false
  end.

(** The answers the probes of [urls] resolve with when they are made one
    after the other from the world [w], and the world they leave.  Both
    stop at the first URL that is refused: its probe has no answer, and
    nothing is probed after it. *)
Fixpoint probe_answers (urls : list string) (w : World) : list bool :=
  match urls with
  | [] => []
  | u :: rest =>
      let (ev, w') := httpsRequest u w in
      if refused ev then [] else probe_answer ev :: probe_answers rest w'
  end.

Fixpoint world_after_probes (urls : list string) (w : World) : World :=
  match urls with
  | [] => w
  | u :: rest =>
      if refused (fst (httpsRequest u w)) then w
      else world_after_probes rest (snd (httpsRequest u w))
  end.

(** [https.request] takes the URL [u], whatever the remote side is. *)
Definition accepted (u : string) : Prop :=
  forall w, refused (fst (httpsRequest u w)) = false.

(** The state once the probe of [u] has been answered (lines 184-197). *)
Definition answered (u : string) (st : state) : state :=
  {| net := snd (httpsRequest u (net st));
     files := files st;
     probed := probed st ++ [(u, probe_answer (fst (httpsRequest u (net st))))];
     requested := requested st; started := started st;
     reported := reported st |}.

(** The state once the sources [probes] have been probed. *)
Definition after_probes (probes : list VideoSource) (st : state) : state :=
  {| net := world_after_probes (map cleaned probes) (net st);
     files := files st;
     probed := probed st
               ++ combine (map cleaned probes)
                    (probe_answers (map cleaned probes) (net st));
     requested := requested st; started := started st;
     reported := reported st |}.

(** ** Downloads *)

(** Per attempt, whether the iteration of the loop pushed a result. *)
Fixpoint attempt_flags (fuel : nat) (filename : string) (attempts : list Attempt)
    (st : state) : list bool :=
  match attempts with
  | [] => []
  | attempt :: rest =>
      match attempt_once fuel filename attempt [] st with
      | Some (pushed, st') =>
          match pushed with [] => false | _ :: _ => true end
          :: attempt_flags fuel filename rest st'
      | None => []
      end
  end.

(** The attempts whose flag is set, in their order. *)
Fixpoint flagged {A : Type} (l : list A) (flags : list bool) : list A :=
  match l, flags with
  | x :: l', b :: flags' => if b then x :: flagged l' flags' else flagged l' flags'
  | _, _ => []
  end.

(** An answer that settles the download at once: any but a redirect to
    follow and a body that breaks off. *)
Definition settling (ev : get_event) : bool :=
  match ev with
  | GetResponse statusCode location _ => negb (is_redirect statusCode location)
  | GetBodyCut => false
  | _ => true
  end.

(** The download of [attempt], begun in [st], settles within [fuel]
    requests. *)
Definition download_settles (fuel : nat) (filename : string) (attempt : Attempt)
    (st : state) : bool :=
  match downloadVideo fuel (attemptUrl attempt)
          (attemptFilename_of filename attempt) (note_started (name attempt) st) with
  | Some _ => true
  | None => false
  end.

(** Each download of the loop over [attempts] settles within [fuel]
    requests, begun in the state the turns before it leave. *)
Fixpoint downloads_settle (fuel : nat) (filename : string) (attempts : list Attempt)
    (st : state) : bool :=
  match attempts with
  | [] => true
  | attempt :: rest =>
      download_settles fuel filename attempt st
      && match attempt_once fuel filename attempt [] st with
         | Some (_, st') => downloads_settle fuel filename rest st'
         | None => false
         end
  end.

(** The state once the file of [filename] has been created and the request
    for [u] answered. *)
Definition requesting (u filename : string) (st : state) : state :=
  {| net := snd (httpsGet u (net st));
     files := <[filePath_of filename := 0%N]> (files st);
     probed := probed st;
     requested := requested st ++ [u];
     started := started st;
     reported := reported st |}.

(** [redirects filename n u st u' st']: from [st], the request for [u] is
    answered by a redirect, and so are the [n - 1] requests that follow it;
    the last of them names [u'], not requested yet in [st']. *)
Inductive redirects (filename : string)
  : nat -> string -> state -> string -> state -> Prop :=
  | redirects_none u st : redirects filename 0 u st u st
  | redirects_hop n u st statusCode target bodySize u' st' :
      fst (httpsGet u (net st)) = GetResponse statusCode (Some target) bodySize ->
      is_redirect statusCode (Some target) = true ->
      redirects filename n target (requesting u filename st) u' st' ->
      redirects filename (S n) u st u' st'.

End Vocabulary.


(** ** Paths of the attempts *)

(** Where the download of [attempt] is written. *)
Definition attempt_path (filename : string) (attempt : Attempt) : string :=
  filePath_of (attemptFilename_of filename attempt).

(** A result whose file is stored with the size the result records, above
    the threshold. *)
Definition backed_by `{Network} (st : state) (r : DownloadResult) : Prop :=
  files st !! path r = Some (size r) /\ (MIN_VALID_BYTES < size r)%N.

(** ** Sample data *)

(** A network whose answers depend on the URL alone. *)
Definition StaticNet (probe : string -> probe_event) (answer : string -> get_event)
  : Network :=
  {| World := unit;
     httpsRequest := fun u w => (probe u, w);
     httpsGet := fun u w => (answer u, w) |}.

Definition initial `{Network} (w : World) : state :=
  {| net := w; files := ∅; probed := []; requested := []; started := [];
     reported := [] |}.

Definition sample_downloadAddr : string :=
  "https://v16.example/d?id=7" +:+ ESCAPED_AMPERSAND +:+ "watermark=1".

Definition sample_playAddrH264 : string :=
  "https://v16.example/h?id=7" +:+ ESCAPED_AMPERSAND +:+ "br=2".

Definition sample_playAddr : string :=
  "https://v16.example/p?id=7" +:+ ESCAPED_AMPERSAND +:+ "watermark=1"
    +:+ ESCAPED_AMPERSAND +:+ "logo=1".

Definition sample_playAddr_clean : string :=
  "https://v16.example/p?id=7&watermark=1&logo=1".

Definition sample_bitrate (qualityType : Z) (urls : list string) : value :=
  JObj (list_to_map
          [("PlayAddr", JObj (list_to_map [("UrlList", JArr (map JStr urls))]));
           ("QualityType", JNum qualityType)]).

Definition sample_video : value :=
  JObj (list_to_map
          [("downloadAddr", JStr sample_downloadAddr);
           ("playAddrH264", JStr sample_playAddrH264);
           ("playAddr", JStr sample_playAddr);
           ("bitrateInfo",
            JArr [sample_bitrate 20 ["https://m.example/0a"; "https://m.example/0b"];
                  JObj (list_to_map [("QualityType", JNum 14)]);
                  sample_bitrate 2 ["https://m.example/2a"]])]).

Definition sample_metadata : value :=
  JObj (list_to_map [("id", JStr "7535517022529047830"); ("video", sample_video)]).

Definition sample_sources : list VideoSource :=
  [ {| url := JStr "https://m.example/0a"; type := bitrate_type 0 0;
       priority := 4; quality := Some (JNum 20) |};
    {| url := JStr sample_playAddr; type := "playAddr"; priority := 3;
       quality := None |};
    {| url := JStr sample_downloadAddr; type := "downloadAddr"; priority := 1;
       quality := None |};
    {| url := JStr "https://m.example/0b"; type := bitrate_type 0 1;
       priority := 4; quality := Some (JNum 20) |} ].

Definition sample_info : VideoInfo :=
  {| originalUrl := sample_playAddr_clean; infoType := "playAddr";
     infoPriority := 3 |}.

(** Only the play address answers its probe. *)
Definition playAddr_only : Network :=
  StaticNet (fun u => if String.eqb u sample_playAddr_clean
                      then ProbeResponse 206 else ProbeResponse 403)
            (fun _ => GetError "ECONNREFUSED").

(** No probe is answered. *)
Definition nothing_reachable : Network :=
  StaticNet (fun _ => ProbeTimeout) (fun _ => GetError "ECONNREFUSED").

(** The unmodified URL is served; the rewritten ones are refused. *)
Definition original_only : Network :=
  StaticNet (fun _ => ProbeTimeout)
            (fun u => if String.eqb u sample_playAddr_clean
                      then GetResponse 200 None 5000
                      else GetResponse 404 None 0).

(** Every URL is served with a body of exactly 1024 bytes. *)
Definition placeholder_body : Network :=
  StaticNet (fun _ => ProbeTimeout) (fun _ => GetResponse 200 None 1024).

(** Every request is redirected to the same address. *)
Definition redirect_loop : Network :=
  StaticNet (fun _ => ProbeTimeout)
            (fun _ => GetResponse 302 (Some "https://v16.example/loop") 0).

(** Three redirects, then the file. *)
Definition redirect_chain : Network :=
  StaticNet (fun _ => ProbeTimeout)
            (fun u =>
               if String.eqb u "https://v16.example/0"
               then GetResponse 302 (Some "https://v16.example/1") 0
               else if String.eqb u "https://v16.example/1"
               then GetResponse 301 (Some "https://v16.example/2") 0
               else if String.eqb u "https://v16.example/2"
               then GetResponse 307 (Some "https://v16.example/3") 0
               else GetResponse 200 None 2048).

(** Builds a chain of redirects on a network that computes. *)
Ltac follow_chain :=
  repeat (eapply redirects_hop; [reflexivity | reflexivity |]);
  apply redirects_none.


(** * The rest of the class *)

(** ** [getVideoId] (lines 13-16) *)

Module JsSplit.

(** [s.split(sep)] for a separator of one character: the pieces between
    the separators, in order; there is always at least one piece. *)
Fixpoint split (sep : ascii) (s : string) : list string :=
  match s with
  | EmptyString => [EmptyString]
  | String c s' =>
      if Ascii.eqb c sep then EmptyString :: split sep s'
      else match split sep s' with
           | part :: parts => String c part :: parts
           | [] => [String c EmptyString]
           end
  end.

(** [parts.join(sep)]. *)
Fixpoint join (sep : string) (parts : list string) : string :=
  match parts with
  | [] => EmptyString
  | [part] => part
  | part :: rest => part +:+ sep +:+ join sep rest
  end.

End JsSplit.

(** [parts[parts.length - 1]] of [this.url.split('/')]. *)
Definition getVideoId (url : string) : string :=
  List.last (JsSplit.split "/" url) EmptyString.

(** ** The search for the video data (lines 37-55) *)

(** [o?.k]: [undefined] when [o] is [null] or [undefined]. *)
Definition opt_prop (o : option value) (k : string) : option value :=
  match o with
  | None => None
  | Some JNull => None
  | Some v => prop_of v k
  end.

(** [o?.itemInfo?.itemStruct]. *)
Definition itemStruct_of (o : option value) : option value :=
  opt_prop (opt_prop o "itemInfo") "itemStruct".

(** [parsedJson['__DEFAULT_SCOPE__']?.['webapp.video-detail']?.itemInfo?.itemStruct]
    for a [parsedJson] that is not [null]. *)
Definition standard_path (parsedJson : value) : option value :=
  itemStruct_of
    (opt_prop (prop_of parsedJson "__DEFAULT_SCOPE__") "webapp.video-detail").

(** The values [parsedJson[key]] for [key] running over
    [Object.keys(parsedJson)].  The keys of an object are handed in as
    [keys], in the order the engine lists them; those of an array are its
    indices, those of a string the positions of its characters; a number
    or a boolean has none. *)
Definition own_values (keys : list string) (parsedJson : value)
  : list (option value) :=
  match parsedJson with
  | JObj props => map (fun key => props !! key) keys
  | JArr items => map Some items
  | JStr s => map (fun c => Some (JStr (String c EmptyString)))
                (list_ascii_of_string s)
  | _ => []
  end.

(** Lines 49-54: the first value with a truthy [itemInfo.itemStruct]. *)
Fixpoint search_itemStruct (candidates : list (option value)) : option value :=
  match candidates with
  | [] => None
  | v :: rest =>
      if truthy_opt (itemStruct_of v) then itemStruct_of v
      else search_itemStruct rest
  end.

(** Lines 37-55: the value of [videoData] at line 57. *)
Definition locate_videoData (keys : list string) (parsedJson : value)
  : res (option value) :=
  match parsedJson with
  | JNull => Throw TypeError
  | _ =>
      if truthy_opt (standard_path parsedJson) then OK (standard_path parsedJson)
      else if truthy_opt (standard_path parsedJson)
      then OK (standard_path parsedJson)
      else OK (search_itemStruct (own_values keys parsedJson))
  end.

(** [getDownloadAddr] from the parsed page on (lines 36-69): an exception
    of the search is caught at line 66 like any other. *)
Definition getDownloadAddr_parsed `{Network} (keys : list string)
    (parsedJson : value) (st : state) : option VideoInfo * state :=
  match locate_videoData keys parsedJson with
  | Throw e => (None, report e st)
  | OK videoData => getDownloadAddr videoData st
  end.

(** ** [fetchPage] (lines 266-303) *)

(** What the GET of [fetchPage] can meet: a response with its status, its
    [Location] header, its [Set-Cookie] headers and the chunks of its body;
    an ['error'] event of the request; [https.get] refusing the URL it is
    given by throwing at line 279; a response whose body breaks off, so
    that ['end'] (line 290) never comes. *)
Inductive page_event : Type :=
  | PageResponse (statusCode : nat) (location : option string)
      (setCookie : option (list string)) (chunks : list string)
  | PageError (message : string)
  | PageInvalidUrl
  | PageBodyCut.

Class PageServer : Type := {
  Web : Type;
  httpsGetPage : string -> Web -> page_event * Web
}.

(** [cookies] is the field [this.cookies]; [received] is the trace of the
    answers, kept for the statements. *)
Record page_state `{PageServer} : Type := {
  web : Web;
  cookies : string;
  received : list page_event
}.

Section Page.
Context `{PageServer}.

(** Lines 280-282. *)
Definition store_cookies (setCookie : option (list string)) (jar : string)
  : string :=
  match setCookie with
  | Some values => JsSplit.join "; " values
  | None => jar
  end.

Definition page_error (statusCode : nat) : error :=
  Error ("Request failed with status code " +:+ JsString.of_nat statusCode).

(** [Some (OK data, _)] when the promise resolves, [Some (Throw e, _)]
    when it rejects, [None] when [fuel] requests did not settle it.  When
    [https.get] throws, the executor is left by the exception and the
    promise rejects with it, no request made; when the body breaks off,
    nothing settles the promise. *)
Fixpoint fetchPage (fuel : nat) (url : string) (st : page_state)
  : option (res string * page_state) :=
  match fuel with
  | O => None
  | S fuel' =>
      let (ev, w) := httpsGetPage url (web st) in
      match ev with
      | PageError message =>
          Some (Throw (Error message),
                {| web := w; cookies := cookies st;
                   received := received st ++ [ev] |})
      | PageInvalidUrl => Some (Throw TypeError, st)
      | PageBodyCut => None
      | PageResponse statusCode location setCookie chunks =>
          let st1 := {| web := w;
                        cookies := store_cookies setCookie (cookies st);
                        received := received st ++ [ev] |} in
          if is_redirect statusCode location then
            match location with
            | Some target => fetchPage fuel' target st1
            | None => None
            end
          else if (statusCode =? 200)%nat then
            Some (OK (String.concat EmptyString chunks), st1)
          else Some (Throw (page_error statusCode), st1)
      end
  end.

End Page.

(** ** Vocabulary for the rest of the class *)

(** The cookie jar after the answers [events], starting from [jar]. *)
Definition jar_after (events : list page_event) (jar : string) : string :=
  fold_left (fun j ev =>
               match ev with
               | PageResponse _ _ setCookie _ => store_cookies setCookie j
               | _ => j
               end) events jar.

(** An answer that sends the request elsewhere. *)
Definition is_page_redirect (ev : page_event) : bool :=
  match ev with
  | PageResponse statusCode location _ _ => is_redirect statusCode location
  | _ => false
  end.

(** A pages server whose answers depend on the URL alone. *)
Definition StaticPages (answer : string -> page_event) : PageServer :=
  {| Web := unit; httpsGetPage := fun u w => (answer u, w) |}.

(** A short link that redirects to the page, each answer with its own
    cookies. *)
Definition short_link : PageServer :=
  StaticPages (fun u =>
    if String.eqb u "https://vm.example/ZM1"
    then PageResponse 301 (Some "https://www.example/@u/video/7") (Some ["a=1"; "b=2"]) []
    else PageResponse 200 None (Some ["tt_webid=9"; "msToken=x"]) ["<html>"; "</html>"]).

(** A parsed page in the standard layout, with a second item elsewhere. *)
Definition sample_page : value :=
  JObj (list_to_map
    [("__DEFAULT_SCOPE__",
      JObj (list_to_map
        [("webapp.video-detail",
          JObj (list_to_map
            [("itemInfo", JObj (list_to_map [("itemStruct", sample_metadata)]))]))]));
     ("other",
      JObj (list_to_map
        [("itemInfo", JObj (list_to_map [("itemStruct", JStr "elsewhere")]))]))]).

(** ** More sample data *)

(** A block with a usable address and a [null] entry in [bitrateInfo]. *)
Definition malformed_video : value :=
  JObj (list_to_map
          [("downloadAddr", JStr sample_downloadAddr);
           ("bitrateInfo", JArr [sample_bitrate 20 ["https://m.example/0a"]; JNull])]).

Definition malformed_metadata : value :=
  JObj (list_to_map [("video", malformed_video)]).

(** A [downloadAddr] that is an object, before a reachable [playAddr]. *)
Definition odd_sources : list VideoSource :=
  [ {| url := JStr sample_playAddr; type := "playAddr"; priority := 3;
       quality := None |};
    {| url := JObj (list_to_map [("UrlList", JArr [JStr "https://m.example/d"])]);
       type := "downloadAddr"; priority := 1; quality := None |} ].

Definition empty_pages `{PageServer} (w : Web) : page_state :=
  {| web := w; cookies := EmptyString; received := [] |}.

(** ** Networks whose [https] module is particular about URLs *)

(** The [https] module of the networks below takes a string that begins
    with [https://] and refuses any other. *)
Definition https_url (u : string) : bool := String.prefix "https://" u.

Definition HttpsNet (probe : string -> probe_event) (answer : string -> get_event)
  : Network :=
  StaticNet (fun u => if https_url u then probe u else ProbeInvalidUrl)
            (fun u => if https_url u then answer u else GetInvalidUrl).

(** Every URL that is taken is served. *)
Definition all_reachable : Network :=
  HttpsNet (fun _ => ProbeResponse 200) (fun _ => GetResponse 200 None 5000).

(** No URL that is taken is answered. *)
Definition none_reachable : Network :=
  HttpsNet (fun _ => ProbeTimeout) (fun _ => GetError "ECONNREFUSED").

Definition NOT_A_URL : string := "not a url".

(** A [downloadAddr] that is no URL, before a [playAddr] that is one. *)
Definition unusable_first : list VideoSource :=
  [ {| url := JStr NOT_A_URL; type := "downloadAddr"; priority := 1;
       quality := None |};
    {| url := JStr sample_playAddr; type := "playAddr"; priority := 3;
       quality := None |} ].

Definition unusable_first_metadata : value :=
  JObj (list_to_map
    [("video", JObj (list_to_map [("downloadAddr", JStr NOT_A_URL);
                                  ("playAddr", JStr sample_playAddr)]))]).

(** A [playAddr] that is no URL, alone. *)
Definition unusable_playAddr : list VideoSource :=
  [ {| url := JStr NOT_A_URL; type := "playAddr"; priority := 3;
       quality := None |} ].

Definition unusable_playAddr_metadata : value :=
  JObj (list_to_map
    [("video", JObj (list_to_map [("playAddr", JStr NOT_A_URL)]))]).

(** The unmodified URL is redirected to itself; the rewritten ones are
    served. *)
Definition original_loops : Network :=
  HttpsNet (fun _ => ProbeTimeout)
           (fun u => if String.eqb u sample_playAddr_clean
                     then GetResponse 302 (Some sample_playAddr_clean) 0
                     else GetResponse 200 None 5000).

(** A redirect to a relative address. *)
Definition relative_redirect : Network :=
  HttpsNet (fun _ => ProbeTimeout)
           (fun u => if String.eqb u "https://v16.example/r"
                     then GetResponse 302 (Some "/next") 0
                     else GetResponse 200 None 5000).

(** The body of the unmodified URL breaks off; the rewritten ones are
    served. *)
Definition original_cut : Network :=
  HttpsNet (fun _ => ProbeTimeout)
           (fun u => if String.eqb u sample_playAddr_clean
                     then GetBodyCut
                     else GetResponse 200 None 5000).
(** * Properties *)

(** ** Strings *)

Module JsStringFacts.
Import JsString.

Lemma prefix_split (p s : string) :
  String.prefix p s = true <-> exists t, s = p +:+ t.
Proof.
  revert s; induction p as [|a p IH]; intros s; simpl.
  - split; [intros _; now exists s | now destruct s].
  - destruct s as [|b s]; simpl.
    + split; [discriminate | intros [t Ht]; discriminate].
    + destruct (ascii_dec a b) as [->|Hab].
      * rewrite IH. split; intros [t Ht]; exists t;
          [now rewrite Ht | now injection Ht].
      * split; [discriminate | intros [t Ht]; injection Ht; congruence].
Qed.

Lemma skipn_app (p t : string) : skipn (String.length p) (p +:+ t) = t.
Proof. induction p; simpl; auto. Qed.

Lemma length_app (s t : string) :
  String.length (s +:+ t) = (String.length s + String.length t)%nat.
Proof. induction s; simpl; auto. Qed.

Lemma replace_from_skip (pat rep : string) (k : nat) (s : string) :
  replace_from pat rep k s = replace_from pat rep 0 (skipn k s).
Proof.
  revert k; induction s as [|c s IH]; intros [|k]; simpl; auto.
Qed.

(** The scan at a position where the pattern starts. *)
Lemma replace_all_match (pat rep t : string) :
  pat <> EmptyString ->
  replace_all pat rep (pat +:+ t) = rep +:+ replace_all pat rep t.
Proof.
  intros Hne. unfold replace_all.
  destruct pat as [|a pat]; [congruence|].
  change (String a pat +:+ t) with (String a (pat +:+ t)).
  cbn [replace_from].
  assert (Hp : String.prefix (String a pat) (String a (pat +:+ t)) = true)
    by (apply prefix_split; now exists t).
  rewrite Hp. f_equal.
  rewrite replace_from_skip. f_equal.
  cbn [String.length]. rewrite Nat.sub_1_r. cbn [Nat.pred].
  apply skipn_app.
Qed.

(** The scan at a position where the pattern does not start. *)
Lemma replace_all_copy (pat rep : string) (c : ascii) (s : string) :
  String.prefix pat (String c s) = false ->
  replace_all pat rep (String c s) = String c (replace_all pat rep s).
Proof. intros Hp. unfold replace_all. cbn [replace_from]. now rewrite Hp. Qed.

Lemma includes_cons (pat : string) (c : ascii) (s : string) :
  includes pat (String c s) = String.prefix pat (String c s) || includes pat s.
Proof. reflexivity. Qed.

(** A rewrite without a match changes nothing. *)
Lemma replace_all_absent (pat rep s : string) :
  includes pat s = false -> replace_all pat rep s = s.
Proof.
  induction s as [|c s IH]; [reflexivity|].
  rewrite includes_cons. intros Hi.
  apply orb_false_iff in Hi as [Hp Hi].
  rewrite replace_all_copy by exact Hp. now rewrite IH.
Qed.

(** Induction on a string along the scan of [replace_all]. *)
Lemma scan_ind (pat : string) (P : string -> Prop) :
  pat <> EmptyString ->
  P EmptyString ->
  (forall t, P t -> P (pat +:+ t)) ->
  (forall c s, String.prefix pat (String c s) = false -> P s -> P (String c s)) ->
  forall s, P s.
Proof.
  intros Hne H0 Hm Hc s.
  remember (String.length s) as n eqn:Hn.
  revert s Hn. induction n as [n IH] using lt_wf_ind. intros s Hn.
  destruct s as [|c s]; [exact H0|].
  destruct (String.prefix pat (String c s)) eqn:Hp.
  - apply prefix_split in Hp as [t Ht]. rewrite Ht. apply Hm.
    apply (IH (String.length t)); [|reflexivity].
    subst n. rewrite Ht, length_app.
    destruct pat; [congruence | simpl; lia].
  - apply Hc; [exact Hp|].
    apply (IH (String.length s)); [subst n; simpl; lia | reflexivity].
Qed.

Lemma prefix_agrees (z : ascii) (p s t : string) :
  avoids z p -> agrees_until z s t ->
  String.prefix p t = true -> String.prefix p s = true.
Proof.
  revert s t; induction p as [|a p IH]; intros s t Hav Hag Hp;
    [now destruct s|].
  destruct t as [|c t]; [discriminate|].
  simpl in Hp. destruct (ascii_dec a c) as [->|]; [|discriminate].
  cbn [avoids agrees_until] in Hav, Hag.
  destruct Hav as [Hcz Hav].
  destruct Hag as [-> | Hag]; [congruence|].
  destruct s as [|b s]; [contradiction|].
  destruct Hag as [-> Hag]. simpl.
  destruct (ascii_dec c c); [|congruence]. eauto.
Qed.

(** When the replacement ends a copy of the pattern's beginning with a
    character the pattern does not have, the rewritten text has no
    occurrence of the pattern left: the rewrite is complete after one
    pass. *)
Lemma replace_all_clears (z : ascii) (pat rep : string) :
  pat <> EmptyString ->
  avoids z pat ->
  (forall t u, agrees_until z (pat +:+ t) (rep +:+ u)) ->
  (forall x, includes pat (rep +:+ x) = includes pat x) ->
  forall s, agrees_until z s (replace_all pat rep s)
            /\ includes pat (replace_all pat rep s) = false.
Proof.
  intros Hne Hav Hrep Hinc s.
  pattern s. apply (scan_ind pat); clear s; [exact Hne | | |].
  - split; [exact I | now destruct pat].
  - intros t [_ IH]. rewrite replace_all_match by exact Hne.
    split; [apply Hrep | now rewrite Hinc].
  - intros c s Hp [Hag IH]. rewrite replace_all_copy by exact Hp.
    assert (Hag' : agrees_until z (String c s) (String c (replace_all pat rep s)))
      by (simpl; auto).
    split; [exact Hag'|].
    rewrite includes_cons, IH, orb_false_r.
    destruct (String.prefix pat (String c (replace_all pat rep s))) eqn:Hq;
      [|reflexivity].
    rewrite <- Hp. symmetry. eapply prefix_agrees; eassumption.
Qed.

(** No [watermark=1] is left behind by the rewrite of lines 214 and 224. *)
Lemma watermark_rewritten (s : string) :
  includes "watermark=1" (replace_all "watermark=1" "watermark=0" s) = false.
Proof.
  apply (replace_all_clears "0"); try discriminate.
  - simpl. repeat split; discriminate.
  - intros t u. simpl. intuition.
  - reflexivity.
Qed.

(** No escaped ampersand is left behind by the rewrite of lines 138 and
    161. *)
Lemma escape_rewritten (s : string) :
  includes ESCAPED_AMPERSAND (basicClean s) = false.
Proof.
  apply (replace_all_clears "&"); try discriminate.
  - simpl. repeat split; discriminate.
  - intros t u. simpl. now left.
  - reflexivity.
Qed.

Lemma basicClean_absent (s : string) :
  includes ESCAPED_AMPERSAND s = false -> basicClean s = s.
Proof. apply replace_all_absent. Qed.

End JsStringFacts.

(** ** The sort by priority *)

Module SortFacts.

Lemma insert_perm (x : VideoSource) (l : list VideoSource) :
  Permutation (x :: l) (insert_by_priority x l).
Proof.
  induction l as [|y l IH]; simpl; [reflexivity|].
  destruct (priority x <=? priority y); [reflexivity|].
  rewrite perm_swap. now apply perm_skip.
Qed.

Lemma sort_perm (l : list VideoSource) : Permutation l (sort_by_priority l).
Proof.
  induction l as [|x l IH]; simpl; [reflexivity|].
  rewrite <- insert_perm. now apply perm_skip.
Qed.

Lemma insert_sorted (x : VideoSource) (l : list VideoSource) :
  StronglySorted by_priority l ->
  StronglySorted by_priority (insert_by_priority x l).
Proof.
  induction 1 as [|y l Hl IH Hy]; simpl.
  - repeat constructor.
  - destruct (priority x <=? priority y) eqn:Hxy.
    + apply Z.leb_le in Hxy. constructor; [now constructor|].
      constructor; [exact Hxy|].
      eapply List.Forall_impl; [|exact Hy].
      intros z Hz. unfold by_priority in *. lia.
    + apply Z.leb_gt in Hxy. constructor; [exact IH|].
      rewrite <- insert_perm. constructor; [|exact Hy].
      unfold by_priority. lia.
Qed.

Lemma sort_sorted (l : list VideoSource) :
  StronglySorted by_priority (sort_by_priority l).
Proof.
  induction l as [|x l IH]; simpl; [constructor | now apply insert_sorted].
Qed.

Lemma insert_stable (p : Z) (x : VideoSource) (l : list VideoSource) :
  List.filter (has_priority p) (insert_by_priority x l)
  = List.filter (has_priority p) (x :: l).
Proof.
  induction l as [|y l IH]; [reflexivity|].
  cbn [insert_by_priority].
  destruct (priority x <=? priority y) eqn:Hxy; [reflexivity|].
  apply Z.leb_gt in Hxy.
  cbn [List.filter] in *. rewrite IH. unfold has_priority.
  destruct (priority x =? p) eqn:Hx, (priority y =? p) eqn:Hy;
    try reflexivity.
  apply Z.eqb_eq in Hx, Hy. lia.
Qed.

(** Sources of equal priority keep the order in which they were pushed. *)
Lemma sort_stable (p : Z) (l : list VideoSource) :
  List.filter (has_priority p) (sort_by_priority l)
  = List.filter (has_priority p) l.
Proof.
  induction l as [|x l IH]; [reflexivity|].
  cbn [sort_by_priority]. rewrite insert_stable.
  cbn [List.filter]. now rewrite IH.
Qed.

Lemma head_in_own_class (a : VideoSource) (l : list VideoSource) :
  List.filter (has_priority (priority a)) (a :: l)
  = a :: List.filter (has_priority (priority a)) l.
Proof. cbn [List.filter]. unfold has_priority at 1. now rewrite Z.eqb_refl. Qed.

(** Ascending order and stability leave one possible result: whatever
    algorithm the engine runs, it returns [sort_by_priority]. *)
Lemma stable_sorted_unique (l1 l2 : list VideoSource) :
  StronglySorted by_priority l1 ->
  StronglySorted by_priority l2 ->
  (forall p, List.filter (has_priority p) l1 = List.filter (has_priority p) l2) ->
  l1 = l2.
Proof.
  intros H1; revert l2.
  induction H1 as [|a l1 Hs1 IH Ha]; intros l2 H2 Hf.
  - destruct l2 as [|b l2]; [reflexivity|].
    specialize (Hf (priority b)). rewrite head_in_own_class in Hf.
    discriminate.
  - destruct H2 as [|b l2 Hs2 Hb].
    { specialize (Hf (priority a)). rewrite head_in_own_class in Hf.
      discriminate. }
    assert (Hab : a = b).
    { destruct (Z.eq_dec (priority b) (priority a)) as [Heq|Hne].
      - pose proof (Hf (priority a)) as Hfa.
        rewrite head_in_own_class, <- Heq, head_in_own_class in Hfa.
        congruence.
      - exfalso.
        assert (Hin_a : In a (b :: l2)).
        { apply (proj1 (filter_In (has_priority (priority a)) a (b :: l2))).
          rewrite <- Hf, head_in_own_class. now left. }
        assert (Hin_b : In b (a :: l1)).
        { apply (proj1 (filter_In (has_priority (priority b)) b (a :: l1))).
          rewrite Hf, head_in_own_class. now left. }
        destruct Hin_a as [->|Hin_a]; [congruence|].
        destruct Hin_b as [->|Hin_b]; [congruence|].
        rewrite List.Forall_forall in Ha, Hb.
        specialize (Ha _ Hin_b). specialize (Hb _ Hin_a).
        unfold by_priority in *. lia. }
    subst b. f_equal. apply IH; [exact Hs2|].
    intros p. specialize (Hf p). cbn [List.filter] in Hf.
    destruct (has_priority p a); congruence.
Qed.

(** A source that precedes all the others stays in front. *)
Lemma sort_cons_min (x : VideoSource) (l : list VideoSource) :
  Forall (by_priority x) l ->
  sort_by_priority (x :: l) = x :: sort_by_priority l.
Proof.
  intros Hmin. cbn [sort_by_priority].
  assert (Hmin' : Forall (by_priority x) (sort_by_priority l))
    by now rewrite <- sort_perm.
  destruct (sort_by_priority l) as [|y l']; [reflexivity|].
  cbn [insert_by_priority].
  apply Forall_cons_1 in Hmin' as [Hxy _]. unfold by_priority in Hxy.
  apply Z.leb_le in Hxy. now rewrite Hxy.
Qed.

End SortFacts.

(** ** Collection of the sources *)

Module ExtractFacts.

(** The decimal digits of an index end where the bracket stands. *)
Lemma digits_then_bracket (d d' : Decimal.uint) (r r' : string) :
  NilEmpty.string_of_uint d +:+ String "]" r
  = NilEmpty.string_of_uint d' +:+ String "]" r' ->
  d = d' /\ r = r'.
Proof.
  revert d'; induction d as [|d IH|d IH|d IH|d IH|d IH|d IH|d IH|d IH|d IH|d IH];
    intros [|d'|d'|d'|d'|d'|d'|d'|d'|d'|d']; cbn; intros Heq;
    try discriminate;
    try (injection Heq as Heq; apply IH in Heq as [-> ->]; now split).
  now injection Heq as ->.
Qed.

(** The type of a mirror source names its pair of indices, and no other
    pair. *)
Lemma bitrate_type_inj (i j i' j' : nat) :
  bitrate_type i j = bitrate_type i' j' -> i = i' /\ j = j'.
Proof.
  unfold bitrate_type, JsString.of_nat. cbn. intros Heq.
  injection Heq as Heq.
  apply digits_then_bracket in Heq as [Hi Heq].
  injection Heq as Heq.
  apply digits_then_bracket in Heq as [Hj _].
  split; now apply DecimalNat.Unsigned.to_uint_inj.
Qed.

Lemma bitrate_sources_shaped (index : nat) (bitrate : value) :
  entry_shaped bitrate = true ->
  bitrate_sources index bitrate
  = OK (url_sources index (prop_of bitrate "QualityType") (mirrors bitrate)).
Proof.
  unfold entry_shaped, bitrate_sources, mirrors.
  destruct bitrate as [| b | n | s | items | props]; try discriminate;
    try reflexivity.
  cbn [get_prop prop_of res_bind].
  destruct (props !! "PlayAddr") as [pa|]; [|reflexivity].
  cbn [truthy_opt]. destruct (truthy pa); [|reflexivity].
  destruct (prop_of pa "UrlList") as [urlList|]; [|reflexivity].
  destruct urlList; cbn [truthy]; try discriminate; try reflexivity;
    repeat match goal with
           | |- context [if ?b then _ else _] => destruct b
           | |- context [match ?s with EmptyString => _ | String _ _ => _ end] =>
               destruct s
           end; try discriminate; reflexivity.
Qed.

(** An entry that is [null] stops the collection. *)
Lemma bitrate_sources_null (index : nat) :
  bitrate_sources index JNull = Throw TypeError.
Proof. reflexivity. Qed.

Lemma forEach_bitrate_spec (entries : list value) :
  forallb entry_shaped entries = true ->
  forall index, exists sources,
    forEach_bitrate index entries = OK sources /\
    forall c, c ∈ sources <->
      exists i bitrate j u,
        entries !! i = Some bitrate /\ mirrors bitrate !! j = Some u /\
        c = {| url := u; type := bitrate_type (index + i) j;
               priority := 4 + Z.of_nat (index + i);
               quality := prop_of bitrate "QualityType" |}.
Proof.
  induction entries as [|b entries IH]; intros Hshape index.
  - exists []. split; [reflexivity|]. intros c. split.
    + intros Hc. inversion Hc.
    + intros (i & bitrate & j & u & Hi & _). destruct i; discriminate.
  - cbn [forallb] in Hshape. apply andb_true_iff in Hshape as [Hb Hrest].
    destruct (IH Hrest (S index)) as (more & Hmore & Hspec).
    exists (url_sources index (prop_of b "QualityType") (mirrors b) ++ more).
    cbn [forEach_bitrate]. rewrite bitrate_sources_shaped by exact Hb.
    cbn [res_bind]. rewrite Hmore. split; [reflexivity|].
    intros c. rewrite elem_of_app, Hspec. unfold url_sources.
    rewrite elem_of_lookup_imap. split.
    + intros [(j & u & -> & Hj) | (i & bitrate & j & u & Hi & Hj & ->)].
      * exists 0%nat, b, j, u. now rewrite Nat.add_0_r.
      * exists (S i), bitrate, j, u. now rewrite <- Nat.add_succ_comm.
    + intros (i & bitrate & j & u & Hi & Hj & ->). destruct i as [|i].
      * left. injection Hi as <-. exists j, u. now rewrite Nat.add_0_r.
      * right. exists i, bitrate, j, u. now rewrite Nat.add_succ_comm.
Qed.

Lemma bitrateInfo_sources_spec (video : value) :
  video_shaped video = true ->
  exists sources,
    bitrateInfo_sources video = OK sources /\
    forall c, c ∈ sources <->
      exists i bitrate j u,
        bitrate_entries video !! i = Some bitrate /\
        mirrors bitrate !! j = Some u /\
        c = {| url := u; type := bitrate_type i j;
               priority := 4 + Z.of_nat i;
               quality := prop_of bitrate "QualityType" |}.
Proof.
  unfold video_shaped, bitrateInfo_sources, bitrate_entries.
  destruct (prop_of video "bitrateInfo") as [[| | | | entries |]|];
    try (intros _; exists []; split; [reflexivity|]; intros c; split;
         [intros Hc; inversion Hc
         | intros (i & bitrate & j & u & Hi & _); destruct i; discriminate]).
  intros Hshape. exact (forEach_bitrate_spec entries Hshape 0%nat).
Qed.

Lemma field_source_spec (video : value) (field : string) (prio : Z)
    (c : VideoSource) :
  c ∈ field_source video field prio <->
  exists u, holds video field u /\
            c = {| url := u; type := field; priority := prio; quality := None |}.
Proof.
  unfold field_source, holds.
  destruct (prop_of video field) as [u|].
  - destruct (truthy u) eqn:Hu.
    + rewrite list_elem_of_singleton. split.
      * intros ->. now exists u.
      * intros (u' & [Heq _] & ->). congruence.
    + split; [intros Hc; inversion Hc|].
      intros (u' & [Heq Ht] & _). congruence.
  - split; [intros Hc; inversion Hc|].
    intros (u' & [Heq _] & _). discriminate.
Qed.

(** A source pushed for a field of the block keeps the field's name as its
    type; one pushed for a mirror is named [bitrateInfo[i][j]]. *)
Lemma field_source_type (video : value) (field : string) (prio : Z)
    (c : VideoSource) :
  c ∈ field_source video field prio -> type c = field /\ priority c = prio.
Proof. rewrite field_source_spec. now intros (u & _ & ->). Qed.

Lemma collect_without_video (videoData : value) (v : option value) :
  get_prop videoData "video" = OK v -> truthy_opt v = false ->
  collect_sources videoData = OK [].
Proof.
  intros Hget Hv. unfold collect_sources. rewrite Hget. cbn [res_bind].
  now rewrite Hv.
Qed.

Lemma collect_with_video (videoData video : value) :
  get_prop videoData "video" = OK (Some video) -> truthy video = true ->
  collect_sources videoData
  = (more <-r bitrateInfo_sources video;
     OK (field_source video "downloadAddr" 1
           ++ field_source video "playAddrH264" 2
           ++ field_source video "playAddr" 3
           ++ more)).
Proof.
  intros Hget Hv. unfold collect_sources. rewrite Hget. cbn [res_bind truthy_opt].
  now rewrite Hv.
Qed.

Lemma field_source_holds (video : value) (field : string) (prio : Z) (u : value) :
  holds video field u ->
  field_source video field prio
  = [ {| url := u; type := field; priority := prio; quality := None |} ].
Proof. intros [Hp Ht]. unfold field_source. now rewrite Hp, Ht. Qed.

(** The mirrors come after the three address fields in every order by
    priority, and bear their pair of indices. *)
Lemma bitrateInfo_sources_kind (video : value) (sources : list VideoSource) :
  bitrateInfo_sources video = OK sources ->
  Forall (fun c => 4 <= priority c /\ exists i j, type c = bitrate_type i j)
    sources.
Proof.
  unfold bitrateInfo_sources.
  destruct (prop_of video "bitrateInfo") as [[| | | | entries |]|];
    try (intros Heq; injection Heq as <-; constructor).
  generalize 0%nat. revert sources.
  induction entries as [|b entries IH]; intros sources index Heq.
  - injection Heq as <-. constructor.
  - cbn [forEach_bitrate] in Heq.
    destruct (bitrate_sources index b) as [here|e] eqn:Hhere; [|discriminate].
    cbn [res_bind] in Heq.
    destruct (forEach_bitrate (S index) entries) as [more|e] eqn:Hmore;
      [|discriminate].
    injection Heq as <-. apply Forall_app. split; [|eapply IH, Hmore].
    unfold bitrate_sources in Hhere.
    destruct (get_prop b "PlayAddr") as [pa|e]; [|discriminate].
    cbn [res_bind] in Hhere.
    destruct (truthy_opt pa); [|injection Hhere as <-; constructor].
    destruct pa as [pa|]; [|injection Hhere as <-; constructor].
    destruct (prop_of pa "UrlList") as [urlList|];
      [|injection Hhere as <-; constructor].
    destruct (truthy urlList); [|injection Hhere as <-; constructor].
    destruct urlList; try discriminate. injection Hhere as <-.
    apply Forall_forall. intros c Hc. unfold url_sources in Hc.
    apply elem_of_lookup_imap in Hc as (j & u & -> & _). cbn.
    split; [lia | now exists index, j].
Qed.

Lemma bitrateInfo_sources_priority (video : value) (sources : list VideoSource) :
  bitrateInfo_sources video = OK sources ->
  Forall (fun c => 4 <= priority c) sources.
Proof.
  intros Hs. eapply List.Forall_impl; [|exact (bitrateInfo_sources_kind _ _ Hs)].
  now intros c [Hc _].
Qed.

Lemma collect_sources_types (videoData : value) (videoSources : list VideoSource) :
  collect_sources videoData = OK videoSources ->
  Forall (fun c => collected_type (type c)) videoSources.
Proof.
  unfold collect_sources.
  destruct (get_prop videoData "video") as [v|e]; [|discriminate].
  cbn [res_bind]. destruct (truthy_opt v);
    [|intros Heq; injection Heq as <-; constructor].
  destruct v as [video|]; [|intros Heq; injection Heq as <-; constructor].
  destruct (bitrateInfo_sources video) as [more|e] eqn:Hmore; [|discriminate].
  cbn [res_bind]. intros Heq. injection Heq as <-.
  unfold collected_type.
  repeat (apply Forall_app; split);
    try (apply Forall_forall; intros c Hc;
         apply field_source_type in Hc as [-> _]; tauto).
  eapply List.Forall_impl; [|exact (bitrateInfo_sources_kind _ _ Hmore)].
  intros c [_ Hc]. tauto.
Qed.

Lemma collected_type_not_fallback (t : string) :
  collected_type t -> t <> FALLBACK_LABEL.
Proof.
  intros [-> | [-> | [-> | (i & j & ->)]]]; discriminate.
Qed.

Lemma field_source_absent (video : value) (field : string) (prio : Z) :
  truthy_opt (prop_of video field) = false -> field_source video field prio = [].
Proof.
  unfold field_source. destruct (prop_of video field) as [u|]; [|reflexivity].
  cbn [truthy_opt]. now intros ->.
Qed.

(** A metadata value that is not [null] can be asked for its [video]. *)
Lemma get_prop_defined (v : value) (k : string) :
  v <> JNull -> get_prop v k = OK (prop_of v k).
Proof. now destruct v. Qed.

Lemma lacks_sources_cases (videoData : value) :
  lacks_sources videoData = true ->
  videoData <> JNull /\
  match prop_of videoData "video" with
  | None => True
  | Some video =>
      negb (truthy video)
      || (negb (truthy_opt (prop_of video "downloadAddr"))
          && negb (truthy_opt (prop_of video "playAddrH264"))
          && negb (truthy_opt (prop_of video "playAddr"))
          && video_shaped video
          && forallb (fun b => match mirrors b with [] => true | _ => false end)
               (bitrate_entries video)) = true
  end.
Proof.
  unfold lacks_sources.
  destruct videoData as [| b | n | s | items | props]; intros Hlacks;
    try discriminate; (split; [discriminate|]); try exact I.
  cbn [prop_of] in *. now destruct (props !! "video").
Qed.

Lemma lacks_sources_collect (videoData : value) :
  lacks_sources videoData = true -> collect_sources videoData = OK [].
Proof.
  intros Hlacks. apply lacks_sources_cases in Hlacks as [Hnull Hcases].
  pose proof (get_prop_defined videoData "video" Hnull) as Hget.
  destruct (prop_of videoData "video") as [video|];
    [|now apply (collect_without_video videoData None)].
  destruct (truthy video) eqn:Hvideo;
    [|now apply (collect_without_video videoData (Some video))].
  cbn [negb orb] in Hcases.
  apply andb_true_iff in Hcases as [Hcases Hempty].
  apply andb_true_iff in Hcases as [Hcases Hshape].
  apply andb_true_iff in Hcases as [Hcases Hp].
  apply andb_true_iff in Hcases as [Hd Hh].
  apply negb_true_iff in Hd, Hh, Hp.
  rewrite (collect_with_video videoData video Hget Hvideo).
  destruct (bitrateInfo_sources_spec video Hshape) as (more & -> & Hspec).
  cbn [res_bind]. rewrite !field_source_absent by assumption.
  cbn [app]. f_equal. apply elem_of_nil_inv. intros c Hc.
  apply Hspec in Hc as (i & bitrate & j & u & Hi & Hj & _).
  rewrite List.forallb_forall in Hempty.
  apply list_elem_of_lookup_2, list_elem_of_In, Hempty in Hi.
  destruct (mirrors bitrate); [destruct j|]; discriminate.
Qed.

End ExtractFacts.

(** ** The probe loop and the fallback *)

Section SelectFacts.
Context `{Network}.

Lemma testVideoUrl_refused (u : string) (st : state) :
  refused (fst (httpsRequest u (net st))) = true ->
  testVideoUrl u st = (Throw TypeError, st).
Proof.
  unfold testVideoUrl. destruct (httpsRequest u (net st)) as [ev w].
  now destruct ev.
Qed.

Lemma testVideoUrl_answered (u : string) (st : state) :
  refused (fst (httpsRequest u (net st))) = false ->
  testVideoUrl u st
  = (OK (probe_answer (fst (httpsRequest u (net st)))), answered u st).
Proof.
  unfold testVideoUrl, answered.
  destruct (httpsRequest u (net st)) as [ev w]. now destruct ev.
Qed.

Lemma probe_answers_cons (u : string) (urls : list string) (w : World) :
  probe_answers (u :: urls) w
  = if refused (fst (httpsRequest u w)) then []
    else probe_answer (fst (httpsRequest u w))
           :: probe_answers urls (snd (httpsRequest u w)).
Proof. cbn [probe_answers]. now destruct (httpsRequest u w). Qed.

(** A probe that has an answer was not refused. *)
Lemma probe_answers_head (u : string) (urls : list string) (w : World)
    (b : bool) (bs : list bool) :
  probe_answers (u :: urls) w = b :: bs ->
  refused (fst (httpsRequest u w)) = false
  /\ probe_answer (fst (httpsRequest u w)) = b
  /\ probe_answers urls (snd (httpsRequest u w)) = bs.
Proof.
  rewrite probe_answers_cons.
  destruct (refused (fst (httpsRequest u w))); [discriminate|].
  intros Heq. now injection Heq as -> ->.
Qed.

Lemma after_probes_nil (st : state) : after_probes [] st = st.
Proof. destruct st. unfold after_probes. cbn. now rewrite app_nil_r. Qed.

Lemma after_probes_cons (c : VideoSource) (rest : list VideoSource) (st : state) :
  refused (fst (httpsRequest (cleaned c) (net st))) = false ->
  after_probes (c :: rest) st = after_probes rest (answered (cleaned c) st).
Proof.
  intros Hc. unfold after_probes, answered.
  cbn [map world_after_probes net files probed requested started reported].
  rewrite probe_answers_cons, Hc. cbn [combine]. now rewrite <- app_assoc.
Qed.

Lemma clean_url_string (c : VideoSource) :
  string_url c = true -> clean_url (url c) = OK (cleaned c).
Proof. unfold string_url, cleaned. now destruct (url c). Qed.

Lemma clean_url_other (c : VideoSource) :
  string_url c = false -> clean_url (url c) = Throw TypeError.
Proof. unfold string_url. now destruct (url c). Qed.

(** One turn of the loop of lines 134-154. *)
Lemma probe_loop_cons (c : VideoSource) (rest : list VideoSource) (st : state) :
  string_url c = true ->
  probe_loop (c :: rest) st
  = if refused (fst (httpsRequest (cleaned c) (net st)))
    then (Throw TypeError, st)
    else if probe_answer (fst (httpsRequest (cleaned c) (net st)))
    then (OK (Some (resolved c)), answered (cleaned c) st)
    else probe_loop rest (answered (cleaned c) st).
Proof.
  intros Hc. cbn [probe_loop]. rewrite clean_url_string by exact Hc.
  destruct (refused (fst (httpsRequest (cleaned c) (net st)))) eqn:Hr.
  - now rewrite testVideoUrl_refused.
  - rewrite testVideoUrl_answered by exact Hr.
    now destruct (probe_answer (fst (httpsRequest (cleaned c) (net st)))).
Qed.

(** The loop stops at the first source whose probe is answered [true]. *)
Lemma probe_loop_found (pre : list VideoSource) (c : VideoSource)
    (post : list VideoSource) (st : state) :
  forallb string_url (pre ++ [c]) = true ->
  probe_answers (map cleaned (pre ++ [c])) (net st)
    = repeat false (length pre) ++ [true] ->
  probe_loop (pre ++ c :: post) st
  = (OK (Some (resolved c)), after_probes (pre ++ [c]) st).
Proof.
  revert st; induction pre as [|a pre IH]; intros st Hstr Hans.
  - cbn [app forallb] in *. apply andb_true_iff in Hstr as [Hc _].
    cbn [map length repeat app] in Hans.
    apply probe_answers_head in Hans as (Hr & Hc1 & _).
    rewrite probe_loop_cons by exact Hc. rewrite Hr, Hc1.
    now rewrite after_probes_cons, after_probes_nil.
  - cbn [app forallb length repeat] in *.
    apply andb_true_iff in Hstr as [Ha Hstr].
    cbn [map] in Hans. apply probe_answers_head in Hans as (Hr & Ha1 & Hrest).
    rewrite probe_loop_cons by exact Ha. rewrite Hr, Ha1.
    rewrite after_probes_cons by exact Hr. apply IH; [exact Hstr|].
    exact Hrest.
Qed.

(** The loop runs to its end when every probe is answered [false]. *)
Lemma probe_loop_failed (sources : list VideoSource) (st : state) :
  forallb string_url sources = true ->
  probe_answers (map cleaned sources) (net st) = repeat false (length sources) ->
  probe_loop sources st = (OK None, after_probes sources st).
Proof.
  revert st; induction sources as [|a sources IH]; intros st Hstr Hans.
  - now rewrite after_probes_nil.
  - cbn [forallb length repeat map] in *.
    apply andb_true_iff in Hstr as [Ha Hstr].
    apply probe_answers_head in Hans as (Hr & Ha1 & Hrest).
    rewrite probe_loop_cons by exact Ha. rewrite Hr, Ha1.
    rewrite after_probes_cons by exact Hr.
    apply IH; [exact Hstr | exact Hrest].
Qed.

(** The loop is left by the exception of the first probe that is refused,
    the probes before it answered [false]. *)
Lemma probe_loop_refused (pre : list VideoSource) (c : VideoSource)
    (post : list VideoSource) (st : state) :
  forallb string_url (pre ++ [c]) = true ->
  probe_answers (map cleaned pre) (net st) = repeat false (length pre) ->
  refused (fst (httpsRequest (cleaned c) (net (after_probes pre st)))) = true ->
  probe_loop (pre ++ c :: post) st = (Throw TypeError, after_probes pre st).
Proof.
  revert st; induction pre as [|a pre IH]; intros st Hstr Hans Hc.
  - cbn [app forallb] in *. apply andb_true_iff in Hstr as [Hs _].
    rewrite after_probes_nil in *.
    rewrite probe_loop_cons by exact Hs. now rewrite Hc.
  - cbn [app forallb length repeat map] in *.
    apply andb_true_iff in Hstr as [Ha Hstr].
    apply probe_answers_head in Hans as (Hr & Ha1 & Hrest).
    rewrite probe_loop_cons by exact Ha. rewrite Hr, Ha1.
    rewrite after_probes_cons in * by exact Hr.
    apply IH; [exact Hstr | exact Hrest | exact Hc].
Qed.

(** Every probe of the list fails, or there is a first one that succeeds,
    or a first one that is refused. *)
Lemma first_answer (sources : list VideoSource) (st : state) :
  probe_answers (map cleaned sources) (net st) = repeat false (length sources)
  \/ (exists pre c post,
       sources = pre ++ c :: post /\
       probe_answers (map cleaned (pre ++ [c])) (net st)
         = repeat false (length pre) ++ [true])
  \/ (exists pre c post,
       sources = pre ++ c :: post /\
       probe_answers (map cleaned pre) (net st) = repeat false (length pre) /\
       refused (fst (httpsRequest (cleaned c) (net (after_probes pre st)))) = true).
Proof.
  revert st; induction sources as [|a sources IH]; intros st; [now left|].
  destruct (refused (fst (httpsRequest (cleaned a) (net st)))) eqn:Hr.
  { right; right. exists [], a, sources. rewrite after_probes_nil. auto. }
  destruct (probe_answer (fst (httpsRequest (cleaned a) (net st)))) eqn:Ha.
  { right; left. exists [], a, sources. split; [reflexivity|].
    cbn [app map length repeat]. now rewrite probe_answers_cons, Hr, Ha. }
  destruct (IH (answered (cleaned a) st))
    as [Hall | [(pre & c & post & -> & Hans) | (pre & c & post & -> & Hans & Hc)]].
  - left. cbn [map length repeat]. rewrite probe_answers_cons, Hr, Ha.
    now rewrite <- Hall.
  - right; left. exists (a :: pre), c, post. split; [reflexivity|].
    cbn [app map length repeat]. rewrite probe_answers_cons, Hr, Ha.
    now rewrite <- Hans.
  - right; right. exists (a :: pre), c, post. split; [reflexivity|].
    rewrite after_probes_cons by exact Hr. split; [|exact Hc].
    cbn [app map length repeat]. rewrite probe_answers_cons, Hr, Ha.
    now rewrite <- Hans.
Qed.

(** What the trace of probes looks like, whatever the URLs are. *)
Lemma probe_loop_trace (sources : list VideoSource) (st : state) :
  exists probes,
    probed (snd (probe_loop sources st)) = probed st ++ probes /\
    match fst (probe_loop sources st) with
    | OK (Some info) =>
        exists before c,
          c ∈ sources /\ infoType info = type c /\
          infoPriority info = priority c /\
          probes = before ++ [(originalUrl info, true)] /\
          Forall (fun e => snd e = false) before
    | OK None => Forall (fun e => snd e = false) probes
    | Throw e => e = TypeError
    end.
Proof.
  revert st; induction sources as [|a sources IH]; intros st.
  - exists []. cbn. rewrite app_nil_r. split; [reflexivity | constructor].
  - cbn [probe_loop]. destruct (clean_url (url a)) as [u|e] eqn:Hu.
    + destruct (refused (fst (httpsRequest u (net st)))) eqn:Hr.
      { rewrite testVideoUrl_refused by exact Hr. exists []. cbn [fst snd].
        now rewrite app_nil_r. }
      rewrite testVideoUrl_answered by exact Hr.
      destruct (probe_answer (fst (httpsRequest u (net st)))) eqn:Hb.
      * exists [(u, true)]. cbn [fst snd]. split.
        { unfold answered. cbn [probed]. now rewrite Hb. }
        exists [], a. cbn. repeat split; auto. left.
      * destruct (IH (answered u st)) as (probes & Hlog & Hres).
        exists ((u, false) :: probes). split.
        { rewrite Hlog. unfold answered. cbn [probed].
          now rewrite Hb, <- app_assoc. }
        destruct (fst (probe_loop sources (answered u st))) as [[info|]|e]; auto.
        destruct Hres as (before & c & Hc & Hty & Hpr & -> & Hall).
        exists ((u, false) :: before), c. repeat split; auto.
        now right.
    + exists []. cbn [fst snd]. rewrite app_nil_r. split; [reflexivity|].
      destruct (url a); cbn in Hu; congruence.
Qed.

(** The fallback of lines 157-167 on sources whose URLs are strings. *)
Lemma fallback_source_spec (sources : list VideoSource) :
  forallb string_url sources = true ->
  (exists c,
     List.find is_playAddr sources = Some c /\
     c ∈ sources /\ type c = "playAddr" /\
     fallback_source sources = OK (fallen_back c))
  \/ ((forall c, c ∈ sources -> type c <> "playAddr") /\
      fallback_source sources = Throw NoAccessibleSource).
Proof.
  intros Hstr. unfold fallback_source. fold is_playAddr.
  destruct (List.find is_playAddr sources) as [c|] eqn:Hfind.
  - left. exists c. apply find_some in Hfind as [Hin Hty].
    apply String.eqb_eq in Hty.
    assert (Hc : string_url c = true)
      by (rewrite List.forallb_forall in Hstr; auto).
    rewrite clean_url_string by exact Hc.
    repeat split; auto. now apply list_elem_of_In.
  - right. split; [|reflexivity]. intros c Hc Hty.
    apply list_elem_of_In in Hc.
    pose proof (find_none _ _ Hfind c Hc) as Hno. unfold is_playAddr in Hno.
    rewrite Hty in Hno. discriminate.
Qed.

(** Whatever the URLs are, a result of the fallback bears its label. *)
Lemma fallback_source_label (sources : list VideoSource) (info : VideoInfo) :
  fallback_source sources = OK info -> infoType info = FALLBACK_LABEL.
Proof.
  unfold fallback_source.
  destruct (List.find _ sources) as [c|]; [|discriminate].
  destruct (clean_url (url c)) as [u|e]; [|discriminate].
  cbn [res_bind]. intros Heq. now injection Heq as <-.
Qed.

Lemma select_source_cons (videoSources : list VideoSource) (st : state) :
  videoSources <> [] ->
  select_source videoSources st
  = match probe_loop (sort_by_priority videoSources) st with
    | (Throw e, st') => (Throw e, st')
    | (OK (Some info), st') => (OK info, st')
    | (OK None, st') => (fallback_source (sort_by_priority videoSources), st')
    end.
Proof. now destruct videoSources. Qed.

Lemma forallb_perm (f : VideoSource -> bool) (l l' : list VideoSource) :
  Permutation l l' -> forallb f l = forallb f l'.
Proof.
  induction 1 as [| x l l' _ IH | x y l | l l' l'' _ IH1 _ IH2]; cbn.
  - reflexivity.
  - now rewrite IH.
  - now rewrite !andb_assoc, (andb_comm (f y)).
  - congruence.
Qed.

Lemma sorted_string_urls (videoSources : list VideoSource) :
  forallb string_url videoSources = true ->
  forallb string_url (sort_by_priority videoSources) = true.
Proof.
  intros Hs. now rewrite <- (forallb_perm _ _ _ (SortFacts.sort_perm videoSources)).
Qed.

Lemma combine_failed (pre : list VideoSource) (c : VideoSource) :
  combine (map cleaned (pre ++ [c])) (repeat false (length pre) ++ [true])
  = map failed_probe pre ++ [(cleaned c, true)].
Proof. induction pre as [|a pre IH]; cbn; [reflexivity | now rewrite IH]. Qed.

Lemma combine_all_failed (sources : list VideoSource) :
  combine (map cleaned sources) (repeat false (length sources))
  = map failed_probe sources.
Proof. induction sources as [|a l IH]; cbn; [reflexivity | now rewrite IH]. Qed.

End SelectFacts.

(** ** Downloads *)

Section DownloadFacts.
Context `{Network}.

(** One request of [downloadVideo]. *)
Lemma downloadVideo_S (fuel : nat) (u filename : string) (st : state) :
  downloadVideo (S fuel) u filename st
  = let st2 := requesting u filename st in
    match fst (httpsGet u (net st)) with
    | GetError message =>
        Some (Throw (Error message),
              set_files (delete (filePath_of filename) (files st2)) st2)
    | GetInvalidUrl =>
        Some (Throw TypeError,
              set_files (<[filePath_of filename := 0%N]> (files st)) st)
    | GetBodyCut => None
    | GetResponse statusCode location bodySize =>
        if is_redirect statusCode location then
          match location with
          | Some target => downloadVideo fuel target filename st2
          | None => None
          end
        else if negb (statusCode =? 200)%nat then
          Some (Throw (status_error statusCode), st2)
        else
          Some (OK (filePath_of filename),
                set_files (<[filePath_of filename := bodySize]> (files st2)) st2)
    end.
Proof.
  cbn [downloadVideo]. unfold get, requesting, set_files. cbn.
  now destruct (httpsGet u (net st)) as [ev w].
Qed.

(** A download touches neither the traces of probes and attempts nor the
    reports. *)
Lemma downloadVideo_frame (fuel : nat) :
  forall (u filename : string) (st : state) r st',
    downloadVideo fuel u filename st = Some (r, st') ->
    started st' = started st /\ probed st' = probed st
    /\ reported st' = reported st.
Proof.
  induction fuel as [|fuel IH]; intros u filename st r st' Hd; [discriminate|].
  rewrite downloadVideo_S in Hd. cbn zeta in Hd.
  destruct (fst (httpsGet u (net st)))
    as [statusCode location bodySize | message | |]; [| | |discriminate].
  - destruct (is_redirect statusCode location).
    + destruct location as [target|]; [|discriminate].
      apply IH in Hd. exact Hd.
    + destruct (negb (statusCode =? 200)%nat); injection Hd as <- <-; auto.
  - injection Hd as <- <-; auto.
  - injection Hd as <- <-; auto.
Qed.

(** When the promise resolves, the file is there. *)
Lemma downloadVideo_resolved (fuel : nat) :
  forall (u filename : string) (st : state) filePath st',
    downloadVideo fuel u filename st = Some (OK filePath, st') ->
    filePath = filePath_of filename /\ exists sz, files st' !! filePath = Some sz.
Proof.
  induction fuel as [|fuel IH]; intros u filename st filePath st' Hd;
    [discriminate|].
  rewrite downloadVideo_S in Hd. cbn zeta in Hd.
  destruct (fst (httpsGet u (net st)))
    as [statusCode location bodySize | message | |]; try discriminate.
  destruct (is_redirect statusCode location).
  - destruct location as [target|]; [|discriminate]. eapply IH, Hd.
  - destruct (negb (statusCode =? 200)%nat); [discriminate|].
    injection Hd as <- <-. split; [reflexivity|].
    exists bodySize. cbn. apply lookup_insert_eq.
Qed.

(** More fuel does not change a settled download. *)
Lemma downloadVideo_more_fuel (fuel : nat) :
  forall (u filename : string) (st : state) out,
    downloadVideo fuel u filename st = Some out ->
    forall extra, downloadVideo (fuel + extra) u filename st = Some out.
Proof.
  induction fuel as [|fuel IH]; intros u filename st out Hd extra;
    [discriminate|].
  cbn [Nat.add]. rewrite downloadVideo_S in *. cbn zeta in *.
  destruct (fst (httpsGet u (net st)))
    as [statusCode location bodySize | message | |]; auto.
  destruct (is_redirect statusCode location); auto.
  destruct location as [target|]; auto.
Qed.

(** A chain of [n] redirects is followed to its end. *)
Lemma redirects_followed (filename : string) (n : nat) (u : string) (st : state)
    (u' : string) (st' : state) :
  redirects filename n u st u' st' ->
  forall fuel,
    downloadVideo (n + fuel) u filename st = downloadVideo fuel u' filename st'.
Proof.
  induction 1 as [u st | n u st statusCode target bodySize u' st' Hget Hred _ IH];
    intros fuel; [reflexivity|].
  cbn [Nat.add]. rewrite downloadVideo_S. cbn zeta.
  rewrite Hget, Hred. apply IH.
Qed.

Lemma redirects_unsettled (filename : string) (n : nat) (u : string) (st : state)
    (u' : string) (st' : state) :
  redirects filename n u st u' st' ->
  forall fuel, (fuel <= n)%nat -> downloadVideo fuel u filename st = None.
Proof.
  induction 1 as [u st | n u st statusCode target bodySize u' st' Hget Hred _ IH];
    intros fuel Hle.
  - now replace fuel with 0%nat by lia.
  - destruct fuel as [|fuel]; [reflexivity|].
    rewrite downloadVideo_S. cbn zeta. rewrite Hget, Hred.
    apply IH. lia.
Qed.

Lemma redirects_requested (filename : string) (n : nat) (u : string) (st : state)
    (u' : string) (st' : state) :
  redirects filename n u st u' st' ->
  length (requested st') = (length (requested st) + n)%nat.
Proof.
  induction 1 as [u st | n u st statusCode target bodySize u' st' Hget Hred _ IH];
    [lia|].
  rewrite IH. cbn. rewrite length_app. cbn. lia.
Qed.

(** The size check of lines 244-256. *)
Lemma check_file_spec (attempt : Attempt) (filePath : string)
    (results : list DownloadResult) (st : state) (sz : N) :
  files st !! filePath = Some sz ->
  check_file attempt filePath results st
  = if (MIN_VALID_BYTES <? sz)%N
    then (results ++ [ {| resultType := name attempt; path := filePath;
                          size := sz; resultUrl := attemptUrl attempt |} ], st)
    else (results, set_files (delete filePath (files st)) st).
Proof. intros Hsz. unfold check_file. now rewrite Hsz. Qed.

Lemma check_file_started (attempt : Attempt) (filePath : string)
    (results : list DownloadResult) (st : state) :
  started (snd (check_file attempt filePath results st)) = started st.
Proof.
  unfold check_file. destruct (files st !! filePath) as [sz|]; [|reflexivity].
  now destruct (MIN_VALID_BYTES <? sz)%N.
Qed.

Lemma check_file_pushed (attempt : Attempt) (filePath : string)
    (results : list DownloadResult) (st : state) :
  exists pushed,
    fst (check_file attempt filePath results st) = results ++ pushed /\
    fst (check_file attempt filePath [] st) = pushed /\
    snd (check_file attempt filePath results st)
      = snd (check_file attempt filePath [] st) /\
    pushed_by attempt pushed.
Proof.
  unfold check_file. destruct (files st !! filePath) as [sz|].
  - destruct (MIN_VALID_BYTES <? sz)%N eqn:Hsz.
    + eexists. repeat split; try reflexivity. right. eexists.
      repeat split; try reflexivity. cbn. now apply N.ltb_lt.
    + exists []. cbn. rewrite app_nil_r. repeat split. now left.
  - exists []. cbn. rewrite app_nil_r. repeat split. now left.
Qed.

(** A turn of the loop hands over to the next one as soon as its download
    has settled. *)
Lemma attempt_once_spec (fuel : nat) (filename : string) (attempt : Attempt)
    (results : list DownloadResult) (st : state) :
  downloadVideo fuel (attemptUrl attempt) (attemptFilename_of filename attempt)
    (note_started (name attempt) st) <> None ->
  exists pushed st',
    attempt_once fuel filename attempt results st = Some (results ++ pushed, st') /\
    attempt_once fuel filename attempt [] st = Some (pushed, st') /\
    pushed_by attempt pushed /\
    started st' = started st ++ [name attempt].
Proof.
  intros Hsettles. unfold attempt_once.
  destruct (downloadVideo fuel (attemptUrl attempt)
              (attemptFilename_of filename attempt)
              (note_started (name attempt) st)) as [[r st1]|] eqn:Hd;
    [|now destruct Hsettles].
  apply downloadVideo_frame in Hd as (Hst & _ & _). cbn in Hst.
  destruct r as [filePath|e].
  - destruct (check_file_pushed attempt filePath results st1)
      as (pushed & H1 & H2 & H3 & Hp).
    exists pushed, (snd (check_file attempt filePath results st1)).
    repeat split; auto.
    + rewrite <- H1. now destruct (check_file attempt filePath results st1).
    + rewrite H3, <- H2. now destruct (check_file attempt filePath [] st1).
    + now rewrite check_file_started.
  - exists [], st1. rewrite app_nil_r. repeat split; auto. now left.
Qed.

(** A status other than 200 rejects the promise and leaves the empty file
    that [fs.createWriteStream] made. *)
Lemma status_rejection_keeps_file (fuel : nat) (u filename : string) (st : state)
    (statusCode : nat) (location : option string) (bodySize : N) :
  fst (httpsGet u (net st)) = GetResponse statusCode location bodySize ->
  is_redirect statusCode location = false ->
  (statusCode =? 200)%nat = false ->
  exists st',
    downloadVideo (S fuel) u filename st = Some (Throw (status_error statusCode), st')
    /\ files st' !! filePath_of filename = Some 0%N.
Proof.
  intros Hget Hred Hcode. rewrite downloadVideo_S. cbn zeta.
  rewrite Hget, Hred, Hcode. cbn [negb]. eexists. split; [reflexivity|].
  cbn. apply lookup_insert_eq.
Qed.

(** An ['error'] event of the request rejects the promise after the file
    has been unlinked (line 357). *)
Lemma request_error_unlinks (fuel : nat) (u filename : string) (st : state)
    (message : string) :
  fst (httpsGet u (net st)) = GetError message ->
  exists st',
    downloadVideo (S fuel) u filename st = Some (Throw (Error message), st')
    /\ files st' !! filePath_of filename = None.
Proof.
  intros Hget. rewrite downloadVideo_S. cbn zeta. rewrite Hget.
  eexists. split; [reflexivity|]. cbn. apply lookup_delete_eq.
Qed.

(** A URL that [https.get] refuses rejects the promise with the file
    created and left empty, no request made. *)
Lemma refused_url_keeps_file (fuel : nat) (u filename : string) (st : state) :
  fst (httpsGet u (net st)) = GetInvalidUrl ->
  downloadVideo (S fuel) u filename st
  = Some (Throw TypeError,
          set_files (<[filePath_of filename := 0%N]> (files st)) st).
Proof. intros Hget. rewrite downloadVideo_S. cbn zeta. now rewrite Hget. Qed.

(** A body that breaks off leaves the promise pending. *)
Lemma body_cut_never_settles (fuel : nat) (u filename : string) (st : state) :
  fst (httpsGet u (net st)) = GetBodyCut ->
  downloadVideo fuel u filename st = None.
Proof.
  intros Hget. destruct fuel as [|fuel]; [reflexivity|].
  rewrite downloadVideo_S. cbn zeta. now rewrite Hget.
Qed.

End DownloadFacts.

(** ** The loop over the attempts *)

Section LoopFacts.
Context `{Network}.

Lemma download_settles_true (fuel : nat) (filename : string) (a : Attempt)
    (st : state) :
  download_settles fuel filename a st = true <->
  downloadVideo fuel (attemptUrl a) (attemptFilename_of filename a)
    (note_started (name a) st) <> None.
Proof.
  unfold download_settles.
  destruct (downloadVideo fuel (attemptUrl a) (attemptFilename_of filename a)
              (note_started (name a) st)); split; try easy.
Qed.

(** A turn whose download does not settle never hands over. *)
Lemma attempt_once_blocked (fuel : nat) (filename : string) (a : Attempt)
    (results : list DownloadResult) (st : state) :
  download_settles fuel filename a st = false ->
  attempt_once fuel filename a results st = None.
Proof.
  unfold download_settles, attempt_once.
  now destruct (downloadVideo fuel (attemptUrl a) (attemptFilename_of filename a)
                  (note_started (name a) st)).
Qed.

(** Where no answer is a redirect or a body that breaks off, a download
    settles with its first request, and so does each download of a run. *)
Lemma downloadVideo_settling (fuel : nat) (u filename : string) (st : state) :
  settling (fst (httpsGet u (net st))) = true ->
  downloadVideo (S fuel) u filename st <> None.
Proof.
  intros Hs. rewrite downloadVideo_S. cbn zeta.
  destruct (fst (httpsGet u (net st)))
    as [statusCode location bodySize | message | |]; cbn in Hs;
    try discriminate.
  apply negb_true_iff in Hs. rewrite Hs.
  now destruct (negb (statusCode =? 200)%nat).
Qed.

Lemma settling_network (fuel : nat) (filename : string) :
  (forall u w, settling (fst (httpsGet u w)) = true) ->
  forall (attempts : list Attempt) (st : state),
    downloads_settle (S fuel) filename attempts st = true.
Proof.
  intros Hall. induction attempts as [|a attempts IH]; intros st;
    [reflexivity|].
  cbn [downloads_settle].
  assert (Ha : download_settles (S fuel) filename a st = true)
    by (apply download_settles_true, downloadVideo_settling, Hall).
  rewrite Ha. cbn [andb].
  destruct (attempt_once_spec (S fuel) filename a [] st) as (p & st1 & Hrun & _);
    [now apply download_settles_true|].
  cbn [app] in Hrun. rewrite Hrun. apply IH.
Qed.

Lemma attempt_loop_spec (fuel : nat) (filename : string) :
  forall (attempts : list Attempt) (results : list DownloadResult) (st : state),
  downloads_settle fuel filename attempts st = true ->
  exists pushed st',
    attempt_loop fuel filename attempts results st = Some (results ++ pushed, st') /\
    started st' = started st ++ map name attempts /\
    length (attempt_flags fuel filename attempts st) = length attempts /\
    map result_key pushed
      = map attempt_key (flagged attempts (attempt_flags fuel filename attempts st)) /\
    Forall (fun r => (MIN_VALID_BYTES < size r)%N) pushed /\
    (pushed = [] <->
     attempt_flags fuel filename attempts st = repeat false (length attempts)).
Proof.
  induction attempts as [|a attempts IH]; intros results st Hsettle.
  - exists [], st. cbn. rewrite !app_nil_r. repeat split; auto.
  - cbn [downloads_settle] in Hsettle.
    apply andb_true_iff in Hsettle as [Ha Hrest].
    apply download_settles_true in Ha.
    destruct (attempt_once_spec fuel filename a results st Ha)
      as (first & st1 & Hrun & Hflag & Hpushed & Hstarted).
    rewrite Hflag in Hrest.
    destruct (IH (results ++ first) st1 Hrest)
      as (more & st' & Hloop & Hstarted' & Hlen & Hkeys & Hsizes & Hnone).
    exists (first ++ more), st'.
    cbn [attempt_loop attempt_flags]. rewrite Hrun, Hflag, Hloop.
    split; [now rewrite app_assoc|].
    split; [rewrite Hstarted', Hstarted, <- app_assoc; reflexivity|].
    destruct Hpushed as [-> | (r & -> & Hty & Hurl & Hsz)].
    + cbn [length flagged app repeat]. rewrite Hlen.
      repeat split; auto.
      * intros Hm. f_equal. now apply Hnone.
      * intros Hf. injection Hf as Hf. now apply Hnone.
    + cbn [length flagged app map repeat]. rewrite Hlen, Hkeys.
      repeat split; auto.
      * unfold result_key, attempt_key. now rewrite Hty, Hurl.
      * discriminate.
      * discriminate.
Qed.

(** The loop does not return when one of its downloads does not settle. *)
Lemma attempt_loop_blocked (fuel : nat) (filename : string) :
  forall (attempts : list Attempt) (results : list DownloadResult) (st : state),
  downloads_settle fuel filename attempts st = false ->
  attempt_loop fuel filename attempts results st = None.
Proof.
  induction attempts as [|a attempts IH]; intros results st Hsettle;
    [discriminate|].
  cbn [downloads_settle] in Hsettle. cbn [attempt_loop].
  destruct (download_settles fuel filename a st) eqn:Ha.
  - apply download_settles_true in Ha.
    destruct (attempt_once_spec fuel filename a results st Ha)
      as (first & st1 & Hrun & Hflag & _).
    rewrite Hflag in Hsettle. rewrite Hrun. apply IH. exact Hsettle.
  - now rewrite attempt_once_blocked.
Qed.

(** More requests allowed do not change a loop that has returned. *)
Lemma attempt_loop_more_fuel (fuel : nat) (filename : string) :
  forall (attempts : list Attempt) (results : list DownloadResult) (st : state)
         out,
  attempt_loop fuel filename attempts results st = Some out ->
  forall extra,
    attempt_loop (fuel + extra) filename attempts results st = Some out.
Proof.
  induction attempts as [|a attempts IH]; intros results st out Hloop extra;
    [exact Hloop|].
  cbn [attempt_loop] in *. unfold attempt_once in *.
  destruct (downloadVideo fuel (attemptUrl a) (attemptFilename_of filename a)
              (note_started (name a) st)) as [out1|] eqn:Hd; [|discriminate].
  rewrite (downloadVideo_more_fuel fuel _ _ _ _ Hd extra).
  destruct out1 as [[filePath|e] st1].
  - destruct (check_file a filePath results st1) as [results' st'].
    now apply IH.
  - now apply IH.
Qed.

(** [getDownloadAddr] hands over what [findBestVideoUrl] returns. *)
Lemma getDownloadAddr_found (videoData : option value) (st : state)
    (info : VideoInfo) (st1 : state) :
  getDownloadAddr videoData st = (Some info, st1) ->
  exists data, videoData = Some data /\ truthy data = true
               /\ findBestVideoUrl data st = (OK info, st1).
Proof.
  unfold getDownloadAddr. destruct videoData as [data|]; cbn [truthy_opt].
  - destruct (truthy data) eqn:Htruthy; [|discriminate].
    destruct (findBestVideoUrl data st) as [[results|e] st'] eqn:Hfind;
      [|discriminate].
    intros Heq. injection Heq as <- <-. now exists data.
  - discriminate.
Qed.

End LoopFacts.

(** * The claims *)

(** C1, evaluated where it fails.  The [downloadAddr] of the metadata is a
    string that [https.request] refuses, and the [playAddr] is reachable:
    its probe, made alone, is answered [true].  The probe of the
    [downloadAddr] source, first in the order of priorities, rejects;
    [findBestVideoUrl] is left by the exception, no probe made, instead of
    passing on to the [playAddr] source, and [getDownloadAddr] reports the
    exception and returns [null]. *)
Theorem refused_url_aborts_selection :
  collect_sources unusable_first_metadata = OK unusable_first
  /\ sort_by_priority unusable_first = unusable_first
  /\ fst (testVideoUrl (H := all_reachable) sample_playAddr_clean
            (initial (H := all_reachable) tt)) = OK true
  /\ findBestVideoUrl (H := all_reachable) unusable_first_metadata
       (initial (H := all_reachable) tt)
     = (Throw TypeError, initial (H := all_reachable) tt)
  /\ getDownloadAddr (H := all_reachable) (Some unusable_first_metadata)
       (initial (H := all_reachable) tt)
     = (None, report TypeError (initial (H := all_reachable) tt)).
Proof. vm_compute. repeat split. Qed.

(** C3, evaluated where it fails.  The only source is a [playAddr] whose
    URL is a string that [https.request] refuses: no probe succeeds and
    the fallback of lines 157-165 would return it, but the loop of lines
    134-154 is left by the exception of its probe before the fallback is
    reached. *)
Theorem refused_url_skips_fallback :
  collect_sources unusable_playAddr_metadata = OK unusable_playAddr
  /\ fallback_source (sort_by_priority unusable_playAddr)
     = OK {| originalUrl := NOT_A_URL; infoType := "playAddr (fallback)";
             infoPriority := 3 |}
  /\ findBestVideoUrl (H := none_reachable) unusable_playAddr_metadata
       (initial (H := none_reachable) tt)
     = (Throw TypeError, initial (H := none_reachable) tt)
  /\ getDownloadAddr (H := none_reachable) (Some unusable_playAddr_metadata)
       (initial (H := none_reachable) tt)
     = (None, report TypeError (initial (H := none_reachable) tt)).
Proof. vm_compute. repeat split. Qed.

(** C10.  A result obtained through the fallback bears the label
    [playAddr (fallback)], which is not the type [playAddr] of the source
    it comes from; as no collected source has that label, the result of
    [findBestVideoUrl] tells whether the chosen source answered its probe:
    either the label is there and every probe of the run failed, or it is
    not and the last probe, of the returned URL, succeeded. *)
Theorem fallback_label_distinguishes `{Network} :
  (forall videoSources st info st',
      select_source videoSources st = (OK info, st') ->
      fst (probe_loop (sort_by_priority videoSources) st) = OK None ->
      infoType info = "playAddr (fallback)" /\ infoType info <> "playAddr")
  /\ (forall videoData st info st',
        findBestVideoUrl videoData st = (OK info, st') ->
        exists probes,
          probed st' = probed st ++ probes /\
          ((infoType info = "playAddr (fallback)" /\ Forall failed probes)
           \/ (infoType info <> "playAddr (fallback)" /\
               exists before,
                 probes = before ++ [(originalUrl info, true)]
                 /\ Forall failed before))).
Proof.
  split.
  - intros videoSources st info st' Hsel Hloop.
    destruct videoSources as [|c0 rest]; [discriminate|].
    rewrite select_source_cons in Hsel by discriminate.
    destruct (probe_loop (sort_by_priority (c0 :: rest)) st)
      as [[[found|]|e] st1]; cbn [fst] in Hloop; try discriminate.
    injection Hsel as Hfb _. apply fallback_source_label in Hfb.
    rewrite Hfb. split; [reflexivity | discriminate].
  - intros videoData st info st' Hfind. unfold findBestVideoUrl in Hfind.
    destruct (collect_sources videoData) as [videoSources|e] eqn:Hcollect;
      [|discriminate].
    destruct videoSources as [|c0 rest]; [discriminate|].
    rewrite select_source_cons in Hfind by discriminate.
    destruct (probe_loop_trace (sort_by_priority (c0 :: rest)) st)
      as (probes & Hlog & Hres).
    destruct (probe_loop (sort_by_priority (c0 :: rest)) st)
      as [[[found|]|e] st1]; cbn [fst snd] in Hlog, Hres; [| |discriminate].
    + injection Hfind as <- <-. exists probes. split; [exact Hlog|]. right.
      destruct Hres as (before & c & Hc & Hty & _ & -> & Hall).
      split; [|now exists before].
      rewrite Hty. apply ExtractFacts.collected_type_not_fallback.
      rewrite <- (SortFacts.sort_perm (c0 :: rest)) in Hc.
      pose proof (ExtractFacts.collect_sources_types _ _ Hcollect) as Htypes.
      rewrite Forall_forall in Htypes. now apply Htypes.
    + injection Hfind as Hfb <-. exists probes. split; [exact Hlog|]. left.
      split; [|exact Hres]. now apply fallback_source_label in Hfb.
Qed.

Lemma fallback_label_distinguishes_witness :
  exists probes,
    probed (snd (findBestVideoUrl (H := nothing_reachable) sample_metadata
                   (initial (H := nothing_reachable) tt))) = probes
    /\ Forall failed probes.
Proof.
  destruct (fallback_label_distinguishes (H := nothing_reachable)) as [_ Hrun].
  destruct (Hrun sample_metadata (initial (H := nothing_reachable) tt)
              {| originalUrl := sample_playAddr_clean;
                 infoType := "playAddr (fallback)"; infoPriority := 3 |}
              (snd (findBestVideoUrl (H := nothing_reachable) sample_metadata
                      (initial (H := nothing_reachable) tt))) eq_refl)
    as (probes & Hlog & [[_ Hall] | [Hlabel _]]).
  - exists probes. split; [exact Hlog | exact Hall].
  - exfalso. now apply Hlabel.
Defined.

(** C2.  The sources collected from a metadata object are exactly these:
    the [downloadAddr] field with priority 1, the [playAddrH264] field with
    priority 2, the [playAddr] field with priority 3, and, for the entry of
    index [i] of [bitrateInfo], every mirror URL of index [j] with priority
    [4 + i], the entry's [QualityType] and the type [bitrateInfo[i][j]],
    which names no other pair of indices.  A field that is missing or
    falsy yields no source and no error. *)
Theorem collected_sources_priorities (videoData video : value) :
  get_prop videoData "video" = OK (Some video) ->
  truthy video = true ->
  video_shaped video = true ->
  (forall i j i' j', bitrate_type i j = bitrate_type i' j' -> i = i' /\ j = j')
  /\
  exists videoSources,
    collect_sources videoData = OK videoSources /\
    forall c, c ∈ videoSources <->
      (exists u, holds video "downloadAddr" u /\
         c = {| url := u; type := "downloadAddr"; priority := 1;
                quality := None |})
      \/ (exists u, holds video "playAddrH264" u /\
            c = {| url := u; type := "playAddrH264"; priority := 2;
                   quality := None |})
      \/ (exists u, holds video "playAddr" u /\
            c = {| url := u; type := "playAddr"; priority := 3;
                   quality := None |})
      \/ (exists i bitrate j u,
            bitrate_entries video !! i = Some bitrate /\
            mirrors bitrate !! j = Some u /\
            c = {| url := u; type := bitrate_type i j;
                   priority := 4 + Z.of_nat i;
                   quality := prop_of bitrate "QualityType" |}).
Proof.
  intros Hget Hvideo Hshape.
  split; [exact ExtractFacts.bitrate_type_inj|].
  destruct (ExtractFacts.bitrateInfo_sources_spec video Hshape)
    as (more & Hmore & Hspec).
  eexists. split.
  - rewrite (ExtractFacts.collect_with_video videoData video Hget Hvideo).
    rewrite Hmore. reflexivity.
  - intros c. rewrite !elem_of_app, !ExtractFacts.field_source_spec, Hspec.
    reflexivity.
Qed.

Lemma collected_sources_priorities_witness :
  exists videoSources,
    collect_sources sample_metadata = OK videoSources /\
    {| url := JStr "https://m.example/2a"; type := "bitrateInfo[2][0]";
       priority := 6; quality := Some (JNum 2) |} ∈ videoSources.
Proof.
  destruct (collected_sources_priorities sample_metadata sample_video
              eq_refl eq_refl eq_refl) as (_ & videoSources & Hcollect & Hspec).
  exists videoSources. split; [exact Hcollect|].
  apply Hspec. right. right. right.
  exists 2%nat, (sample_bitrate 2 ["https://m.example/2a"]), 0%nat,
    (JStr "https://m.example/2a").
  repeat split; reflexivity.
Defined.

(** C9.  A metadata object without [video] block, or whose block yields no
    URL, gives an empty list of sources without an exception, and
    [findBestVideoUrl] then fails with [NoSourcesFound] before any probe;
    [run] reports the failure and returns [null]. *)
Theorem no_video_no_sources `{Network} (videoData : value) (st : state) :
  lacks_sources videoData = true ->
  collect_sources videoData = OK []
  /\ findBestVideoUrl videoData st = (Throw NoSourcesFound, st)
  /\ (truthy videoData = true ->
      forall fuel videoId,
        run fuel (Some videoData) videoId st
        = Some (None, report (Error "Failed to get video URLs")
                        (report NoSourcesFound st))).
Proof.
  intros Hlacks.
  pose proof (ExtractFacts.lacks_sources_collect videoData Hlacks) as Hcollect.
  assert (Hfind : findBestVideoUrl videoData st = (Throw NoSourcesFound, st))
    by (unfold findBestVideoUrl; now rewrite Hcollect).
  repeat split; auto.
  intros Htruthy fuel videoId. unfold run, getDownloadAddr.
  cbn [truthy_opt]. now rewrite Htruthy, Hfind.
Qed.

Lemma no_video_no_sources_witness :
  findBestVideoUrl (H := playAddr_only)
    (JObj (list_to_map [("id", JStr "7535517022529047830")]))
    (initial (H := playAddr_only) tt)
  = (Throw NoSourcesFound, initial (H := playAddr_only) tt).
Proof.
  apply (no_video_no_sources (H := playAddr_only)
           (JObj (list_to_map [("id", JStr "7535517022529047830")]))
           (initial (H := playAddr_only) tt)).
  reflexivity.
Defined.


(** C5.  Once a download has resolved, the attempt is recorded as a success
    if and only if the size of its file is greater than 1024 bytes; a file
    of 1024 bytes or fewer is deleted and nothing is recorded. *)
Theorem size_threshold `{Network} (fuel : nat) (filename : string)
    (attempt : Attempt) (results : list DownloadResult) (st : state)
    (filePath : string) (st1 : state) :
  downloadVideo fuel (attemptUrl attempt) (attemptFilename_of filename attempt)
    (note_started (name attempt) st) = Some (OK filePath, st1) ->
  MIN_VALID_BYTES = 1024%N /\
  exists sz,
    files st1 !! filePath = Some sz /\
    ((MIN_VALID_BYTES < sz)%N ->
     attempt_once fuel filename attempt results st
     = Some (results ++ [ {| resultType := name attempt; path := filePath;
                             size := sz; resultUrl := attemptUrl attempt |} ],
             st1)) /\
    ((sz <= MIN_VALID_BYTES)%N ->
     exists st',
       attempt_once fuel filename attempt results st = Some (results, st')
       /\ files st' = delete filePath (files st1)
       /\ files st' !! filePath = None).
Proof.
  intros Hd. split; [reflexivity|].
  destruct (downloadVideo_resolved _ _ _ _ _ _ Hd) as [_ [sz Hsz]].
  exists sz. split; [exact Hsz|].
  unfold attempt_once. rewrite Hd, (check_file_spec _ _ _ _ _ Hsz). split.
  - intros Hbig. apply N.ltb_lt in Hbig. now rewrite Hbig.
  - intros Hsmall. apply N.ltb_ge in Hsmall. rewrite Hsmall.
    eexists. split; [reflexivity|]. split; [reflexivity|].
    cbn. apply lookup_delete_eq.
Qed.

Lemma size_threshold_witness :
  exists st',
    attempt_once (H := placeholder_body) 1 "7535517022529047830.mp4"
      {| attemptUrl := sample_playAddr_clean; name := "Original";
         suffix := "_original" |} [] (initial (H := placeholder_body) tt)
    = Some ([], st')
    /\ files st' !! "videos/7535517022529047830_original.mp4" = None.
Proof.
  destruct (size_threshold (H := placeholder_body) 1 "7535517022529047830.mp4"
              {| attemptUrl := sample_playAddr_clean; name := "Original";
                 suffix := "_original" |} [] (initial (H := placeholder_body) tt)
              "videos/7535517022529047830_original.mp4" _ eq_refl)
    as (_ & sz & Hsz & _ & Hsmall).
  vm_compute in Hsz. injection Hsz as <-.
  destruct Hsmall as (st' & Hrun & _ & Hgone); [discriminate|].
  exists st'. split; [exact Hrun | exact Hgone].
Defined.

(** C6, as the code has it.  A download that rejects is caught at line 258
    and the loop goes on; a download that does not settle is awaited at
    line 241 for good.  When each download of the run settles, every
    attempt of the list is begun whatever became of the ones before it, the
    results are those of the attempts that succeeded, in the order of the
    list, more requests allowed change nothing, and [run] reports
    [AllDownloadsFailed] exactly when every attempt failed and returns the
    video id as soon as one succeeded.  When one of them does not settle,
    neither the loop nor [run] returns.  On a network that neither
    redirects nor lets a body break off, each download settles with its
    first request. *)
Theorem attempts_isolated `{Network} (fuel : nat) (videoInfo : VideoInfo)
    (videoId : string) (st : state) :
  let filename := videoId +:+ ".mp4" in
  let attempts := plan_attempts videoInfo in
  let flags := attempt_flags fuel filename attempts st in
  (downloads_settle fuel filename attempts st = true ->
   exists results st',
     tryMultipleDownloads fuel videoInfo filename st = Some (results, st')
     /\ (forall extra,
           tryMultipleDownloads (fuel + extra) videoInfo filename st
           = Some (results, st'))
     /\ started st' = started st ++ map name attempts
     /\ length flags = length attempts
     /\ map result_key results = map attempt_key (flagged attempts flags)
     /\ (results = [] <-> flags = repeat false (length attempts))
     /\ forall videoData st0,
          getDownloadAddr videoData st0 = (Some videoInfo, st) ->
          (flags = repeat false (length attempts) ->
           run fuel videoData videoId st0
           = Some (None, report AllDownloadsFailed st'))
          /\ (flags <> repeat false (length attempts) ->
              run fuel videoData videoId st0 = Some (Some videoId, st')))
  /\ (downloads_settle fuel filename attempts st = false ->
      tryMultipleDownloads fuel videoInfo filename st = None
      /\ forall videoData st0,
           getDownloadAddr videoData st0 = (Some videoInfo, st) ->
           run fuel videoData videoId st0 = None)
  /\ ((forall u w, settling (fst (httpsGet u w)) = true) ->
      (0 < fuel)%nat ->
      downloads_settle fuel filename attempts st = true).
Proof.
  intros filename attempts flags. split; [|split].
  - intros Hsettle.
    destruct (attempt_loop_spec fuel filename attempts [] st Hsettle)
      as (results & st' & Hloop & Hstarted & Hlen & Hkeys & _ & Hnone).
    cbn [app] in Hloop. exists results, st'.
    split; [exact Hloop|].
    split; [intros extra; now apply attempt_loop_more_fuel|].
    split; [exact Hstarted|]. split; [exact Hlen|].
    split; [exact Hkeys|]. split; [exact Hnone|].
    intros videoData st0 Hinfo.
    assert (Hrun : run fuel videoData videoId st0
                   = match results with
                     | [] => Some (None, report AllDownloadsFailed st')
                     | _ :: _ => Some (Some videoId, st')
                     end).
    { unfold run. rewrite Hinfo. fold filename.
      unfold tryMultipleDownloads. fold attempts. rewrite Hloop.
      now destruct results. }
    rewrite Hrun. split; intros Hflags.
    + apply Hnone in Hflags. now rewrite Hflags.
    + destruct results as [|r results]; [|reflexivity].
      exfalso. now apply Hflags, Hnone.
  - intros Hsettle.
    pose proof (attempt_loop_blocked fuel filename attempts [] st Hsettle)
      as Hloop.
    split; [exact Hloop|].
    intros videoData st0 Hinfo. unfold run. rewrite Hinfo. fold filename.
    unfold tryMultipleDownloads. fold attempts. now rewrite Hloop.
  - intros Hall Hfuel. destruct fuel as [|fuel]; [lia|].
    now apply settling_network.
Qed.

Lemma attempts_isolated_witness :
  exists results st',
    tryMultipleDownloads (H := original_only) 1 sample_info
      "7535517022529047830.mp4" (initial (H := original_only) tt)
    = Some (results, st')
    /\ started st' = ["Original"; "Watermark Modified"; "Full Parameter Modified"]
    /\ map result_key results = [("Original", sample_playAddr_clean)].
Proof.
  assert (Hsettle : downloads_settle (H := original_only) 1
                      "7535517022529047830.mp4" (plan_attempts sample_info)
                      (initial (H := original_only) tt) = true)
    by (vm_compute; reflexivity).
  destruct (attempts_isolated (H := original_only) 1 sample_info
              "7535517022529047830" (initial (H := original_only) tt))
    as (Hsettled & _ & _).
  destruct (Hsettled Hsettle) as (results & st' & Hrun & _ & Hstarted & _ & Hkeys & _).
  exists results, st'. split; [exact Hrun|]. split; [exact Hstarted|].
  rewrite Hkeys. reflexivity.
Defined.

(** C6, as the claim has it, refuted.  The first attempt is redirected to
    its own address for ever; the second one, made alone, is served.  The
    loop never returns, whatever the number of requests allowed: the
    second and the third attempt are not begun. *)
Lemma looping_attempt_blocks_the_rest :
  (exists st',
     downloadVideo (H := original_loops) 1
       "https://v16.example/p?id=7&watermark=0&logo=1"
       "7535517022529047830_no_watermark.mp4" (initial (H := original_loops) tt)
     = Some (OK "videos/7535517022529047830_no_watermark.mp4", st'))
  /\ map attemptUrl (plan_attempts sample_info)
     = [sample_playAddr_clean;
        "https://v16.example/p?id=7&watermark=0&logo=1";
        "https://v16.example/p?id=7&watermark=0&logo=0"]
  /\ ~ exists fuel,
         tryMultipleDownloads (H := original_loops) fuel sample_info
           "7535517022529047830.mp4" (initial (H := original_loops) tt)
         <> None.
Proof.
  split; [eexists; vm_compute; reflexivity|].
  split; [vm_compute; reflexivity|].
  intros [fuel Hsettled]. apply Hsettled.
  assert (Hloop : forall fuel filename (st : state (H := original_loops)),
             downloadVideo (H := original_loops) fuel sample_playAddr_clean
               filename st = None).
  { clear. induction fuel as [|fuel IH]; intros filename st; [reflexivity|].
    rewrite downloadVideo_S. cbn. apply IH. }
  unfold tryMultipleDownloads.
  change (plan_attempts sample_info)
    with ({| attemptUrl := sample_playAddr_clean; name := "Original";
             suffix := "_original" |} :: tl (plan_attempts sample_info)).
  cbn [attempt_loop]. unfold attempt_once. cbn [attemptUrl].
  now rewrite Hloop.
Qed.

(** C7, as the code has it.  A redirect is followed by a new request to the
    address of its [Location] header, and nothing limits the number of
    hops: a chain of [n] redirects is followed through all its [n] hops,
    whatever [n] is, and the download is not settled before the last of
    them has been followed. *)
Theorem redirects_followed_without_limit `{Network} (filename : string)
    (n : nat) (u : string) (st : state) (u' : string) (st' : state) :
  redirects filename n u st u' st' ->
  (forall fuel,
      downloadVideo (n + fuel) u filename st = downloadVideo fuel u' filename st')
  /\ length (requested st') = (length (requested st) + n)%nat
  /\ (forall fuel, (fuel <= n)%nat -> downloadVideo fuel u filename st = None).
Proof.
  intros Hchain. split; [|split].
  - now apply redirects_followed.
  - now apply (redirects_requested filename n u st u' st').
  - now apply (redirects_unsettled filename n u st u' st').
Qed.

Lemma redirects_followed_without_limit_witness :
  exists st',
    redirects (H := redirect_chain) "7.mp4" 3 "https://v16.example/0"
      (initial (H := redirect_chain) tt) "https://v16.example/3" st'
    /\ downloadVideo (H := redirect_chain) 4 "https://v16.example/0" "7.mp4"
         (initial (H := redirect_chain) tt)
       = downloadVideo (H := redirect_chain) 1 "https://v16.example/3" "7.mp4" st'
    /\ length (requested st') = 3%nat.
Proof.
  eexists. split; [follow_chain|].
  - split.
    + apply (redirects_followed_without_limit (H := redirect_chain) "7.mp4" 3
               "https://v16.example/0" (initial (H := redirect_chain) tt)
               "https://v16.example/3" _).
      follow_chain.
    + reflexivity.
Defined.

(** C7, as the claim has it, refuted: on a network that answers every
    request with a redirect, no number of requests settles the download. *)
Lemma redirect_loop_never_settles :
  ~ exists fuel,
      downloadVideo (H := redirect_loop) fuel "https://v16.example/0" "7.mp4"
        (initial (H := redirect_loop) tt) <> None.
Proof.
  intros [fuel Hsettled]. apply Hsettled.
  assert (Hloop : forall fuel u (st : state (H := redirect_loop)),
             downloadVideo (H := redirect_loop) fuel u "7.mp4" st = None).
  { clear. induction fuel as [|fuel IH]; intros u st; [reflexivity|].
    rewrite downloadVideo_S. cbn. apply IH. }
  apply Hloop.
Qed.

(** C8, evaluated where it fails.  The source URL is served and the two
    rewritten URLs are answered with status 404: one result is returned,
    and the empty files of the two failed attempts are still there. *)
Theorem failed_attempts_leave_files :
  match tryMultipleDownloads (H := original_only) 1 sample_info
          "7535517022529047830.mp4" (initial (H := original_only) tt) with
  | Some (results, st') =>
      map path results = ["videos/7535517022529047830_original.mp4"]
      /\ files st' !! "videos/7535517022529047830_original.mp4" = Some 5000%N
      /\ files st' !! "videos/7535517022529047830_no_watermark.mp4" = Some 0%N
      /\ files st' !! "videos/7535517022529047830_full_modified.mp4" = Some 0%N
  | None => False
  end.
Proof. vm_compute. repeat split. Qed.

(** * Further properties of the program *)

(** ** The collected sources are in probing order *)

Module OrderFacts.

Lemma sorted_app (l1 l2 : list VideoSource) :
  StronglySorted by_priority l1 ->
  StronglySorted by_priority l2 ->
  (forall x y, x ∈ l1 -> y ∈ l2 -> by_priority x y) ->
  StronglySorted by_priority (l1 ++ l2).
Proof.
  induction 1 as [|a l1 Hl1 IH Ha]; intros Hl2 Hcross; [exact Hl2|].
  cbn [app]. constructor.
  - apply IH; [exact Hl2|]. intros x y Hx Hy. apply Hcross; [|exact Hy].
    now apply elem_of_cons; right.
  - apply Forall_app. split; [exact Ha|].
    apply Forall_forall. intros y Hy. apply Hcross; [|exact Hy].
    now apply elem_of_cons; left.
Qed.

Lemma same_priority_sorted (p : Z) (l : list VideoSource) :
  Forall (fun c => priority c = p) l -> StronglySorted by_priority l.
Proof.
  induction 1 as [|c l Hc Hl IH]; constructor; [exact IH|].
  eapply List.Forall_impl; [|exact Hl].
  intros d Hd. cbn beta in Hd. unfold by_priority. lia.
Qed.

Lemma bitrate_sources_priority (index : nat) (bitrate : value)
    (here : list VideoSource) :
  bitrate_sources index bitrate = OK here ->
  Forall (fun c => priority c = 4 + Z.of_nat index) here.
Proof.
  unfold bitrate_sources.
  destruct (get_prop bitrate "PlayAddr") as [pa|e]; [|discriminate].
  cbn [res_bind].
  destruct (truthy_opt pa); [|intros Heq; injection Heq as <-; constructor].
  destruct pa as [pa|]; [|intros Heq; injection Heq as <-; constructor].
  destruct (prop_of pa "UrlList") as [urlList|];
    [|intros Heq; injection Heq as <-; constructor].
  destruct (truthy urlList); [|intros Heq; injection Heq as <-; constructor].
  destruct urlList; try discriminate. intros Heq. injection Heq as <-.
  apply Forall_forall. intros c Hc. unfold url_sources in Hc.
  now apply elem_of_lookup_imap in Hc as (j & u & -> & _).
Qed.

Lemma forEach_bitrate_sorted (entries : list value) :
  forall index sources,
    forEach_bitrate index entries = OK sources ->
    StronglySorted by_priority sources
    /\ Forall (fun c => 4 + Z.of_nat index <= priority c) sources.
Proof.
  induction entries as [|b entries IH]; intros index sources Heq.
  - injection Heq as <-. split; constructor.
  - cbn [forEach_bitrate] in Heq.
    destruct (bitrate_sources index b) as [here|e] eqn:Hhere; [|discriminate].
    cbn [res_bind] in Heq.
    destruct (forEach_bitrate (S index) entries) as [more|e] eqn:Hmore;
      [|discriminate].
    injection Heq as <-.
    apply bitrate_sources_priority in Hhere.
    destruct (IH _ _ Hmore) as [Hsorted Hlow].
    rewrite Forall_forall in Hhere, Hlow. split.
    + apply sorted_app; [|exact Hsorted|].
      * apply (same_priority_sorted (4 + Z.of_nat index)).
        now apply Forall_forall.
      * intros x y Hx Hy. apply Hhere in Hx. apply Hlow in Hy.
        unfold by_priority. lia.
    + apply Forall_app. split; apply Forall_forall; intros c Hc.
      * apply Hhere in Hc. lia.
      * apply Hlow in Hc. lia.
Qed.

Lemma field_source_sorted (video : value) (field : string) (prio : Z) :
  StronglySorted by_priority (field_source video field prio)
  /\ Forall (fun c => priority c = prio) (field_source video field prio).
Proof.
  unfold field_source. destruct (prop_of video field) as [u|];
    [destruct (truthy u)|]; split; repeat constructor.
Qed.

Lemma collect_sources_sorted (videoData : value) (videoSources : list VideoSource) :
  collect_sources videoData = OK videoSources ->
  StronglySorted by_priority videoSources.
Proof.
  unfold collect_sources.
  destruct (get_prop videoData "video") as [v|e]; [|discriminate].
  cbn [res_bind]. destruct (truthy_opt v);
    [|intros Heq; injection Heq as <-; constructor].
  destruct v as [video|]; [|intros Heq; injection Heq as <-; constructor].
  destruct (bitrateInfo_sources video) as [more|e] eqn:Hmore; [|discriminate].
  cbn [res_bind]. intros Heq. injection Heq as <-.
  pose proof (ExtractFacts.bitrateInfo_sources_priority video more Hmore) as Hlow.
  assert (Hmore' : StronglySorted by_priority more).
  { unfold bitrateInfo_sources in Hmore.
    destruct (prop_of video "bitrateInfo") as [[| | | | entries |]|];
      try (injection Hmore as <-; constructor).
    now apply forEach_bitrate_sorted in Hmore as [Hs _]. }
  rewrite Forall_forall in Hlow.
  destruct (field_source_sorted video "downloadAddr" 1) as [Hs1 Hp1].
  destruct (field_source_sorted video "playAddrH264" 2) as [Hs2 Hp2].
  destruct (field_source_sorted video "playAddr" 3) as [Hs3 Hp3].
  rewrite Forall_forall in Hp1, Hp2, Hp3.
  repeat (apply sorted_app; try assumption);
    intros x y Hx Hy; unfold by_priority;
    repeat match goal with
           | Hin : _ ∈ _ ++ _ |- _ => apply elem_of_app in Hin as [Hin | Hin]
           end;
    repeat match goal with
           | Hin : ?c ∈ field_source _ "downloadAddr" _ |- _ => apply Hp1 in Hin
           | Hin : ?c ∈ field_source _ "playAddrH264" _ |- _ => apply Hp2 in Hin
           | Hin : ?c ∈ field_source _ "playAddr" _ |- _ => apply Hp3 in Hin
           | Hin : ?c ∈ more |- _ => apply Hlow in Hin
           end; lia.
Qed.

(** A list in ascending order is left as it is by the sort. *)
Lemma sort_sorted_id (l : list VideoSource) :
  StronglySorted by_priority l -> sort_by_priority l = l.
Proof.
  intros Hl. symmetry. apply SortFacts.stable_sorted_unique;
    [exact Hl | apply SortFacts.sort_sorted|].
  intros p. symmetry. apply SortFacts.sort_stable.
Qed.

End OrderFacts.

(** ** What the probe loop leaves behind *)

Section ProbeFacts.
Context `{Network}.

Lemma clean_url_cleaned (c : VideoSource) (u : string) :
  clean_url (url c) = OK u -> u = cleaned c /\ string_url c = true.
Proof.
  unfold cleaned, string_url. destruct (url c); cbn; try discriminate.
  intros Heq. now injection Heq as <-.
Qed.

(** The loop ends in the state reached by probing an initial segment of
    its list. *)
Lemma probe_loop_segment (sources : list VideoSource) (st : state) :
  exists k, (k <= length sources)%nat
            /\ snd (probe_loop sources st) = after_probes (take k sources) st.
Proof.
  revert st; induction sources as [|a sources IH]; intros st.
  - exists 0%nat. split; [reflexivity|]. cbn [take]. now rewrite after_probes_nil.
  - cbn [probe_loop]. destruct (clean_url (url a)) as [u|e] eqn:Hu.
    + apply clean_url_cleaned in Hu as [-> _].
      destruct (refused (fst (httpsRequest (cleaned a) (net st)))) eqn:Hr.
      { rewrite testVideoUrl_refused by exact Hr. exists 0%nat.
        split; [cbn; lia|]. cbn [take snd]. now rewrite after_probes_nil. }
      rewrite testVideoUrl_answered by exact Hr.
      destruct (probe_answer (fst (httpsRequest (cleaned a) (net st)))).
      * exists 1%nat. split; [cbn; lia|]. cbn [take snd].
        now rewrite after_probes_cons, after_probes_nil.
      * destruct (IH (answered (cleaned a) st)) as (k & Hk & Hst). exists (S k).
        split; [cbn; lia|]. cbn [take].
        now rewrite after_probes_cons.
    + exists 0%nat. split; [cbn; lia|]. cbn [take snd].
      now rewrite after_probes_nil.
Qed.

(** A source whose URL is not a string stops the loop with a [TypeError]
    once the sources before it have failed their probes. *)
Lemma probe_loop_type_error (pre : list VideoSource) (c : VideoSource)
    (post : list VideoSource) (st : state) :
  forallb string_url pre = true ->
  string_url c = false ->
  probe_answers (map cleaned pre) (net st) = repeat false (length pre) ->
  probe_loop (pre ++ c :: post) st = (Throw TypeError, after_probes pre st).
Proof.
  revert st; induction pre as [|a pre IH]; intros st Hstr Hc Hans.
  - cbn [app probe_loop]. rewrite clean_url_other by exact Hc.
    now rewrite after_probes_nil.
  - cbn [app forallb length repeat map] in *.
    apply andb_true_iff in Hstr as [Ha Hstr].
    apply probe_answers_head in Hans as (Hr & Ha1 & Hrest).
    rewrite probe_loop_cons by exact Ha. rewrite Hr, Ha1.
    rewrite after_probes_cons by exact Hr.
    apply IH; [exact Hstr | exact Hc | exact Hrest].
Qed.

Lemma select_source_state (videoSources : list VideoSource) (st : state) :
  snd (select_source videoSources st)
  = snd (probe_loop (sort_by_priority videoSources) st).
Proof.
  destruct videoSources as [|c0 rest]; [reflexivity|].
  rewrite select_source_cons by discriminate.
  now destruct (probe_loop (sort_by_priority (c0 :: rest)) st)
    as [[[info|]|e] st1].
Qed.

End ProbeFacts.

(** ** What a download leaves behind *)

Section FileFacts.
Context `{Network}.

(** A download writes to its own path only. *)
Lemma downloadVideo_other_files (fuel : nat) :
  forall (u filename : string) (st : state) r st' (p : string),
    downloadVideo fuel u filename st = Some (r, st') ->
    p <> filePath_of filename ->
    files st' !! p = files st !! p.
Proof.
  induction fuel as [|fuel IH]; intros u filename st r st' p Hd Hp;
    [discriminate|].
  rewrite downloadVideo_S in Hd. cbn zeta in Hd.
  assert (Hreq : files (requesting u filename st) !! p = files st !! p)
    by (cbn; now rewrite lookup_insert_ne).
  destruct (fst (httpsGet u (net st)))
    as [statusCode location bodySize | message | |]; [| | |discriminate].
  - destruct (is_redirect statusCode location).
    + destruct location as [target|]; [|discriminate].
      rewrite (IH _ _ _ _ _ _ Hd Hp). exact Hreq.
    + destruct (negb (statusCode =? 200)%nat); injection Hd as <- <-.
      * exact Hreq.
      * cbn. now rewrite !lookup_insert_ne.
  - injection Hd as <- <-. cbn. rewrite lookup_delete_ne by congruence.
    now rewrite lookup_insert_ne.
  - injection Hd as <- <-. cbn. now rewrite lookup_insert_ne.
Qed.

(** What is at the path of a settled download: the body of the response
    when it resolved, nothing or an empty file when it was rejected. *)
Lemma downloadVideo_own_file (fuel : nat) :
  forall (u filename : string) (st : state) r st',
    downloadVideo fuel u filename st = Some (r, st') ->
    match r with
    | OK filePath => filePath = filePath_of filename
                     /\ exists sz, files st' !! filePath = Some sz
    | Throw _ => files st' !! filePath_of filename = None
                 \/ files st' !! filePath_of filename = Some 0%N
    end.
Proof.
  induction fuel as [|fuel IH]; intros u filename st r st' Hd; [discriminate|].
  rewrite downloadVideo_S in Hd. cbn zeta in Hd.
  destruct (fst (httpsGet u (net st)))
    as [statusCode location bodySize | message | |]; [| | |discriminate].
  - destruct (is_redirect statusCode location).
    + destruct location as [target|]; [|discriminate]. eapply IH, Hd.
    + destruct (negb (statusCode =? 200)%nat); injection Hd as <- <-.
      * right. cbn. apply lookup_insert_eq.
      * split; [reflexivity|]. exists bodySize. cbn. apply lookup_insert_eq.
  - injection Hd as <- <-. left. cbn. apply lookup_delete_eq.
  - injection Hd as <- <-. right. cbn. apply lookup_insert_eq.
Qed.

(** After a chain of redirects, the response that ends it decides. *)
Lemma downloadVideo_after_redirects (filename : string) (n : nat) (u : string)
    (st : state) (u' : string) (st' : state) (location : option string)
    (bodySize : N) :
  redirects filename n u st u' st' ->
  fst (httpsGet u' (net st')) = GetResponse 200 location bodySize ->
  exists st'',
    downloadVideo (n + 1) u filename st = Some (OK (filePath_of filename), st'')
    /\ files st'' !! filePath_of filename = Some bodySize
    /\ length (requested st'') = (length (requested st) + n + 1)%nat.
Proof.
  intros Hchain Hlast.
  rewrite (redirects_followed filename n u st u' st' Hchain 1).
  rewrite downloadVideo_S. cbn zeta. rewrite Hlast.
  assert (Hno : is_redirect 200 location = false) by reflexivity.
  rewrite Hno. cbn [Nat.eqb negb]. eexists. split; [reflexivity|]. split.
  - cbn. apply lookup_insert_eq.
  - cbn. rewrite length_app.
    rewrite (redirects_requested filename n u st u' st' Hchain). cbn. lia.
Qed.

Lemma check_file_other_files (attempt : Attempt) (filePath : string)
    (results : list DownloadResult) (st : state) (p : string) :
  p <> filePath ->
  files (snd (check_file attempt filePath results st)) !! p = files st !! p.
Proof.
  intros Hp. unfold check_file.
  destruct (files st !! filePath) as [sz|]; [|reflexivity].
  destruct (MIN_VALID_BYTES <? sz)%N; [reflexivity|].
  cbn. now rewrite lookup_delete_ne.
Qed.

(** One turn of the loop: files at other paths stay, and a pushed result
    is backed by the file at the attempt's path. *)
Lemma attempt_once_files (fuel : nat) (filename : string) (attempt : Attempt)
    (results results' : list DownloadResult) (st st' : state) :
  attempt_once fuel filename attempt results st = Some (results', st') ->
  (forall p, p <> attempt_path filename attempt ->
             files st' !! p = files st !! p)
  /\ (results' = results
      \/ exists r, results' = results ++ [r]
                   /\ path r = attempt_path filename attempt
                   /\ backed_by st' r).
Proof.
  unfold attempt_once, attempt_path. intros Hrun.
  destruct (downloadVideo fuel (attemptUrl attempt)
              (attemptFilename_of filename attempt)
              (note_started (name attempt) st)) as [[r st1]|] eqn:Hd;
    [|discriminate].
  assert (Hother : forall p, p <> filePath_of (attemptFilename_of filename attempt) ->
                             files st1 !! p = files st !! p).
  { intros p Hp. now rewrite (downloadVideo_other_files _ _ _ _ _ _ _ Hd Hp). }
  destruct r as [filePath|e].
  - destruct (downloadVideo_resolved _ _ _ _ _ _ Hd) as [-> [sz Hsz]].
    rewrite (check_file_spec _ _ _ _ _ Hsz) in Hrun.
    destruct (MIN_VALID_BYTES <? sz)%N eqn:Hbig; injection Hrun as <- <-.
    + split; [exact Hother|]. right. eexists. split; [reflexivity|].
      split; [reflexivity|]. split; [exact Hsz | now apply N.ltb_lt].
    + split; [|now left]. intros p Hp. cbn.
      rewrite lookup_delete_ne by congruence. now apply Hother.
  - injection Hrun as <- <-. split; [exact Hother | now left].
Qed.

(** The loop over attempts whose paths differ from one another and from
    those of the results already there. *)
Lemma attempt_loop_files (fuel : nat) (filename : string) :
  forall (attempts : list Attempt) (results results' : list DownloadResult)
         (st st' : state),
    attempt_loop fuel filename attempts results st = Some (results', st') ->
    NoDup (map (attempt_path filename) attempts) ->
    Forall (fun r => path r ∉ map (attempt_path filename) attempts) results ->
    Forall (backed_by st) results ->
    Forall (backed_by st') results'
    /\ (length results' <= length results + length attempts)%nat
    /\ (forall p, p ∉ map (attempt_path filename) attempts ->
                  files st' !! p = files st !! p).
Proof.
  induction attempts as [|a attempts IH];
    intros results results' st st' Hloop Hdistinct Hfresh Hbacked.
  - injection Hloop as <- <-. repeat split; auto. cbn. lia.
  - cbn [attempt_loop] in Hloop.
    destruct (attempt_once fuel filename a results st) as [[results1 st1]|] eqn:Hone;
      [|discriminate].
    apply attempt_once_files in Hone as [Hother Hpushed].
    cbn [map] in Hdistinct, Hfresh. apply NoDup_cons in Hdistinct as [Ha Hdistinct].
    assert (Hfresh1 : Forall (fun r => path r ∉ map (attempt_path filename) attempts)
                        results1).
    { destruct Hpushed as [-> | (r & -> & Hpath & _)].
      - eapply List.Forall_impl; [|exact Hfresh].
        intros r Hr Hin. apply Hr. now apply elem_of_cons; right.
      - apply Forall_app. split.
        + eapply List.Forall_impl; [|exact Hfresh].
          intros r' Hr Hin. apply Hr. now apply elem_of_cons; right.
        + constructor; [|constructor]. now rewrite Hpath. }
    assert (Hbacked1 : Forall (backed_by st1) results1).
    { assert (Hkept : Forall (backed_by st1) results).
      { rewrite Forall_forall in Hfresh, Hbacked. apply Forall_forall.
        intros r Hr. destruct (Hbacked r Hr) as [Hfile Hsize].
        split; [|exact Hsize]. rewrite Hother; [exact Hfile|].
        intros Heq. apply (Hfresh r Hr). rewrite Heq.
        now apply elem_of_cons; left. }
      destruct Hpushed as [-> | (r & -> & _ & Hr)]; [exact Hkept|].
      apply Forall_app. split; [exact Hkept|].
      constructor; [exact Hr | constructor]. }
    destruct (IH _ _ _ _ Hloop Hdistinct Hfresh1 Hbacked1)
      as (Hall & Hlen & Hframe).
    split; [exact Hall|]. split.
    + destruct Hpushed as [-> | (r & -> & _)]; cbn [length];
        [|rewrite length_app in Hlen; cbn in Hlen]; lia.
    + intros p Hp. rewrite Hframe.
      * apply Hother. intros ->. apply Hp. now apply elem_of_cons; left.
      * intros Hin. apply Hp. now apply elem_of_cons; right.
Qed.

End FileFacts.

(** ** File names and rewritten URLs *)

Module NameFacts.
Import JsString.

Lemma append_inv_head (p x y : string) : p +:+ x = p +:+ y -> x = y.
Proof. induction p as [|c p IH]; cbn; [auto | intros Heq; injection Heq; auto]. Qed.

(** The extension does not start inside a name that ends with it unless it
    occurs in the name itself. *)
Lemma append_cons (c : ascii) (s t : string) :
  String c s +:+ t = String c (s +:+ t).
Proof. reflexivity. Qed.

Lemma append_nil (t : string) : EmptyString +:+ t = t.
Proof. reflexivity. Qed.

Lemma extension_not_early (c : ascii) (s : string) :
  String.prefix ".mp4" (String c s) = false ->
  String.prefix ".mp4" (String c (s +:+ ".mp4")) = false.
Proof.
  destruct s as [|d [|e [|f rest]]];
    rewrite ?append_cons, ?append_nil;
    repeat (cbn [String.prefix];
            match goal with
            | |- context [ascii_dec ?a ?b] =>
                destruct (ascii_dec a b) as [Heq|Hne];
                [try discriminate Heq; try subst|]
            end);
    cbn [String.prefix];
    try reflexivity; try discriminate; auto.
  intros Hrest. now destruct rest.
Qed.

(** [filename.replace('.mp4', '')] on [id + '.mp4'] gives [id] back when
    the extension does not occur in [id]. *)
Lemma extension_stripped (id : string) :
  includes ".mp4" id = false ->
  replace_first ".mp4" EmptyString (id +:+ ".mp4") = id.
Proof.
  induction id as [|c id IH]; [reflexivity|].
  rewrite JsStringFacts.includes_cons. intros Hinc.
  apply orb_false_iff in Hinc as [Hp Hinc].
  change (String c id +:+ ".mp4") with (String c (id +:+ ".mp4")).
  cbn [replace_first]. rewrite (extension_not_early c id Hp).
  now rewrite IH.
Qed.

(** The three suffixes give three paths, whatever the file name. *)
Lemma attempt_paths_distinct (videoInfo : VideoInfo) (filename : string) :
  NoDup (map (attempt_path filename) (plan_attempts videoInfo)).
Proof.
  unfold plan_attempts, attempt_path, attemptFilename_of, filePath_of.
  set (base := replace_first ".mp4" EmptyString filename).
  assert (Hne : forall x y, x <> y ->
            "videos/" +:+ base +:+ x <> "videos/" +:+ base +:+ y).
  { intros x y Hxy Heq. apply Hxy.
    now apply append_inv_head, append_inv_head in Heq. }
  destruct (includes "watermark=1" (originalUrl videoInfo)); cbn [app map];
    repeat (apply NoDup_cons; split);
    try apply NoDup_nil_2;
    rewrite ?elem_of_cons, ?elem_of_nil; cbn [suffix];
    intuition (try (eapply Hne; [|eassumption]; discriminate)).
Qed.

(** Rewriting [logo=1] brings no [watermark=1] back. *)
Lemma logo_rewrite_keeps_clear (s : string) :
  includes "watermark=1" s = false ->
  includes "watermark=1" (replace_all "logo=1" "logo=0" s) = false.
Proof.
  pattern s. apply (JsStringFacts.scan_ind "logo=1"); clear s.
  - discriminate.
  - reflexivity.
  - intros t IH Hclear. rewrite JsStringFacts.replace_all_match by discriminate.
    etransitivity; [|apply IH].
    + reflexivity.
    + etransitivity; [|exact Hclear]. reflexivity.
  - intros c s Hp IH Hclear.
    rewrite JsStringFacts.includes_cons in Hclear.
    apply orb_false_iff in Hclear as [Hhere Hclear].
    rewrite JsStringFacts.replace_all_copy by exact Hp.
    rewrite JsStringFacts.includes_cons, (IH Hclear), orb_false_r.
    destruct (String.prefix "watermark=1"
                (String c (replace_all "logo=1" "logo=0" s))) eqn:Hq;
      [|reflexivity].
    rewrite <- Hhere. symmetry.
    apply (JsStringFacts.prefix_agrees "0" _ (String c s) _) in Hq;
      [exact Hq | |].
    + simpl. repeat split; discriminate.
    + cbn [agrees_until]. right. split; [reflexivity|].
      apply (JsStringFacts.replace_all_clears "0" "logo=1" "logo=0");
        try discriminate.
      * simpl. repeat split; discriminate.
      * intros t u. simpl. intuition.
      * reflexivity.
Qed.

Lemma replace_all_agrees (z : ascii) (pat rep : string) :
  pat <> EmptyString ->
  (forall t u, agrees_until z (pat +:+ t) (rep +:+ u)) ->
  forall s, agrees_until z s (replace_all pat rep s).
Proof.
  intros Hne Hrep s. pattern s.
  apply (JsStringFacts.scan_ind pat); clear s; [exact Hne | exact I | |].
  - intros t _. rewrite JsStringFacts.replace_all_match by exact Hne.
    apply Hrep.
  - intros c s Hp IH. rewrite JsStringFacts.replace_all_copy by exact Hp.
    cbn [agrees_until]. auto.
Qed.

(** A rewrite that only writes the character [z] brings in no occurrence
    of a text without [z]. *)
Lemma rewrite_keeps_clear (z : ascii) (pat rep other : string) :
  pat <> EmptyString ->
  avoids z other ->
  (forall t u, agrees_until z (pat +:+ t) (rep +:+ u)) ->
  (forall x, includes other (rep +:+ x) = includes other x) ->
  (forall x, includes other (pat +:+ x) = includes other x) ->
  forall s, includes other s = false ->
            includes other (replace_all pat rep s) = false.
Proof.
  intros Hne Hav Hrep Hinc_rep Hinc_pat s. pattern s.
  apply (JsStringFacts.scan_ind pat); clear s; [exact Hne | | |].
  - auto.
  - intros t IH Hclear. rewrite JsStringFacts.replace_all_match by exact Hne.
    rewrite Hinc_rep. apply IH. now rewrite <- Hinc_pat.
  - intros c s Hp IH Hclear.
    rewrite JsStringFacts.includes_cons in Hclear.
    apply orb_false_iff in Hclear as [Hhere Hclear].
    rewrite JsStringFacts.replace_all_copy by exact Hp.
    rewrite JsStringFacts.includes_cons, (IH Hclear), orb_false_r.
    destruct (String.prefix other (String c (replace_all pat rep s))) eqn:Hq;
      [|reflexivity].
    rewrite <- Hhere. symmetry.
    apply (JsStringFacts.prefix_agrees z _ (String c s) _) in Hq;
      [exact Hq | exact Hav |].
    cbn [agrees_until]. right. split; [reflexivity|].
    now apply replace_all_agrees.
Qed.

(** Rewriting [watermark=1] brings no [logo=1] in. *)
Lemma watermark_rewrite_keeps_clear (s : string) :
  includes "logo=1" s = false ->
  includes "logo=1" (replace_all "watermark=1" "watermark=0" s) = false.
Proof.
  apply (rewrite_keeps_clear "0"); try discriminate; try reflexivity.
  - simpl. repeat split; discriminate.
  - intros t u. simpl. intuition.
Qed.

Lemma logo_rewritten (s : string) :
  includes "logo=1" (replace_all "logo=1" "logo=0" s) = false.
Proof.
  apply (JsStringFacts.replace_all_clears "0"); try discriminate.
  - simpl. repeat split; discriminate.
  - intros t u. simpl. intuition.
  - reflexivity.
Qed.

Lemma basicClean_idempotent (s : string) : basicClean (basicClean s) = basicClean s.
Proof.
  apply JsStringFacts.basicClean_absent, JsStringFacts.escape_rewritten.
Qed.

End NameFacts.

(** ** The video id *)

Module IdFacts.
Import JsSplit.

Lemma split_nonempty (sep : ascii) (s : string) : split sep s <> [].
Proof.
  destruct s as [|c s]; cbn [split]; [discriminate|].
  destruct (Ascii.eqb c sep); [discriminate|].
  now destruct (split sep s).
Qed.

Lemma split_avoids (sep : ascii) (s : string) :
  avoids sep s -> split sep s = [s].
Proof.
  induction s as [|c s IH]; [reflexivity|]. cbn [split avoids]. intros [Hc Hs].
  destruct (Ascii.eqb_spec c sep) as [->|_]; [congruence|].
  now rewrite (IH Hs).
Qed.

Lemma split_pieces (sep : ascii) (s : string) : Forall (avoids sep) (split sep s).
Proof.
  induction s as [|c s IH]; cbn [split]; [repeat constructor|].
  destruct (Ascii.eqb_spec c sep) as [->|Hne].
  - constructor; [exact I | exact IH].
  - destruct (split sep s) as [|part parts]; [repeat constructor; auto|].
    apply Forall_cons_1 in IH as [Hpart Hparts].
    constructor; [|exact Hparts]. cbn. auto.
Qed.

(** Splitting at a separator splits the list of pieces. *)
Lemma split_app (sep : ascii) (base id : string) :
  split sep (base +:+ String sep id) = split sep base ++ split sep id.
Proof.
  induction base as [|c base IH].
  - rewrite NameFacts.append_nil. cbn [split app]. now rewrite Ascii.eqb_refl.
  - rewrite NameFacts.append_cons. cbn [split]. rewrite IH.
    destruct (Ascii.eqb c sep); [reflexivity|].
    pose proof (split_nonempty sep base) as Hne.
    now destruct (split sep base).
Qed.

Lemma join_cons (sep part : string) (parts : list string) :
  parts <> [] ->
  join sep (part :: parts) = part +:+ sep +:+ join sep parts.
Proof. now destruct parts. Qed.

(** Joining the pieces gives the text back. *)
Lemma join_split (sep : ascii) (s : string) :
  join (String sep EmptyString) (split sep s) = s.
Proof.
  induction s as [|c s IH]; [reflexivity|]. cbn [split].
  pose proof (split_nonempty sep s) as Hne.
  destruct (Ascii.eqb_spec c sep) as [->|_].
  - rewrite join_cons by exact Hne. now rewrite IH.
  - destruct (split sep s) as [|part parts]; [congruence|].
    destruct parts as [|next parts].
    + cbn [join] in *. now rewrite IH.
    + rewrite join_cons by discriminate.
      rewrite join_cons in IH by discriminate.
      rewrite NameFacts.append_cons. now rewrite IH.
Qed.

Lemma last_app_nonempty (l1 l2 : list string) (d : string) :
  l2 <> [] -> List.last (l1 ++ l2) d = List.last l2 d.
Proof.
  intros Hne. induction l1 as [|x l1 IH]; [reflexivity|].
  cbn [app]. destruct (l1 ++ l2) eqn:Happ; [|exact IH].
  apply app_eq_nil in Happ as [_ ->]. congruence.
Qed.

Lemma getVideoId_after_slash (base id : string) :
  getVideoId (base +:+ String "/" id) = getVideoId id.
Proof.
  unfold getVideoId. rewrite split_app.
  apply last_app_nonempty, split_nonempty.
Qed.

Lemma getVideoId_avoids (url : string) : avoids "/" (getVideoId url).
Proof.
  unfold getVideoId. pose proof (split_pieces "/" url) as Hall.
  pose proof (split_nonempty "/" url) as Hne.
  induction (split "/" url) as [|part parts IH]; [congruence|].
  apply Forall_cons_1 in Hall as [Hpart Hparts].
  destruct parts as [|next parts]; [exact Hpart|].
  now apply IH.
Qed.

(** A URL is its id, or something, a slash and its id. *)
Lemma getVideoId_tail (url : string) :
  url = getVideoId url
  \/ exists base, url = base +:+ String "/" (getVideoId url).
Proof.
  induction url as [|c url IH]; [now left|].
  destruct (Ascii.eqb_spec c "/") as [->|Hne].
  - right.
    assert (Hsame : getVideoId (String "/" url) = getVideoId url)
      by exact (getVideoId_after_slash EmptyString url).
    rewrite Hsame. destruct IH as [Hid | [base Hbase]].
    + exists EmptyString. rewrite NameFacts.append_nil. f_equal. exact Hid.
    + exists (String "/" base). rewrite NameFacts.append_cons. f_equal.
      exact Hbase.
  - destruct IH as [Hid | [base Hbase]].
    + left. pose proof (getVideoId_avoids url) as Hav. rewrite <- Hid in Hav.
      unfold getVideoId. rewrite split_avoids; [reflexivity|].
      cbn [avoids]. auto.
    + right. exists (String c base).
      pose proof (getVideoId_after_slash base (getVideoId url)) as Hurl.
      rewrite <- Hbase in Hurl.
      pose proof (getVideoId_after_slash (String c base) (getVideoId url))
        as Hcons.
      rewrite NameFacts.append_cons, <- Hbase in Hcons.
      rewrite Hcons, <- Hurl, NameFacts.append_cons. f_equal. exact Hbase.
Qed.

End IdFacts.

(** ** The search for the video data *)

Module LocateFacts.

Lemma search_found (candidates : list (option value)) (v : value) :
  search_itemStruct candidates = Some v ->
  truthy v = true /\ exists c, c ∈ candidates /\ itemStruct_of c = Some v.
Proof.
  induction candidates as [|c candidates IH]; [discriminate|].
  cbn [search_itemStruct].
  destruct (truthy_opt (itemStruct_of c)) eqn:Hc.
  - intros Hv. rewrite Hv in Hc. split; [exact Hc|].
    exists c. split; [now left | exact Hv].
  - intros Hv. destruct (IH Hv) as [Ht (c' & Hin & Hc')].
    split; [exact Ht|]. exists c'. split; [now right | exact Hc'].
Qed.

Lemma search_none (candidates : list (option value)) :
  search_itemStruct candidates = None <->
  forall c, c ∈ candidates -> truthy_opt (itemStruct_of c) = false.
Proof.
  induction candidates as [|c candidates IH]; cbn [search_itemStruct].
  - split; [intros _ c Hc; inversion Hc | reflexivity].
  - destruct (truthy_opt (itemStruct_of c)) eqn:Hc.
    + split.
      * intros Hnone. rewrite Hnone in Hc. discriminate.
      * intros Hall. rewrite Hall in Hc; [discriminate | now left].
    + rewrite IH. split.
      * intros Hall c' Hin. apply elem_of_cons in Hin as [-> | Hin]; auto.
      * intros Hall c' Hin. apply Hall. now right.
Qed.

(** The second test of the standard path (line 44) never decides. *)
Lemma locate_videoData_eq (keys : list string) (parsedJson : value) :
  parsedJson <> JNull ->
  locate_videoData keys parsedJson
  = OK (if truthy_opt (standard_path parsedJson) then standard_path parsedJson
        else search_itemStruct (own_values keys parsedJson)).
Proof.
  intros Hnull. unfold locate_videoData.
  destruct parsedJson; try congruence;
    now destruct (truthy_opt (standard_path _)).
Qed.

Lemma standard_path_null : standard_path JNull = None.
Proof. reflexivity. Qed.

Lemma locate_videoData_truthy (keys : list string) (parsedJson v : value) :
  locate_videoData keys parsedJson = OK (Some v) -> truthy v = true.
Proof.
  intros Hfound.
  assert (Hnull : parsedJson <> JNull) by (intros ->; discriminate).
  revert Hfound. rewrite locate_videoData_eq by exact Hnull.
  destruct (truthy_opt (standard_path parsedJson)) eqn:Hstd; intros Heq;
    injection Heq as Heq.
  - now rewrite Heq in Hstd.
  - now apply search_found in Heq as [Ht _].
Qed.

End LocateFacts.

(** ** The page fetch *)

Section PageFacts.
Context `{PageServer}.

Lemma jar_after_app (events more : list page_event) (jar : string) :
  jar_after (events ++ more) jar = jar_after more (jar_after events jar).
Proof. unfold jar_after. apply fold_left_app. Qed.

(** A settled fetch has received redirects, each of them followed, and
    then: an answer that is not a redirect and decides the outcome, or the
    refusal of [https.get] to take the URL it was given, which is the URL
    of the call or the [Location] of the last redirect.  The cookie jar has
    followed every answer. *)
Lemma fetchPage_trace (fuel : nat) :
  forall (url : string) (st : page_state) r st',
    fetchPage fuel url st = Some (r, st') ->
    exists answers,
      received st' = received st ++ answers
      /\ cookies st' = jar_after answers (cookies st)
      /\ match r with
         | OK data =>
             exists hops location setCookie chunks,
               answers = hops ++ [PageResponse 200 location setCookie chunks]
               /\ forallb is_page_redirect hops = true
               /\ data = String.concat EmptyString chunks
         | Throw e =>
             (exists hops message,
                answers = hops ++ [PageError message]
                /\ forallb is_page_redirect hops = true
                /\ e = Error message)
             \/ (exists hops statusCode location setCookie chunks,
                   answers
                   = hops ++ [PageResponse statusCode location setCookie chunks]
                   /\ forallb is_page_redirect hops = true
                   /\ is_redirect statusCode location = false
                   /\ statusCode <> 200%nat /\ e = page_error statusCode)
             \/ (forallb is_page_redirect answers = true /\ e = TypeError)
         end.
Proof.
  induction fuel as [|fuel IH]; intros url st r st' Hfetch; [discriminate|].
  cbn [fetchPage] in Hfetch.
  destruct (httpsGetPage url (web st)) as [ev w].
  destruct ev as [statusCode location setCookie chunks | message | |];
    [| | |discriminate].
  - destruct (is_redirect statusCode location) eqn:Hred.
    + destruct location as [target|]; [|discriminate].
      apply IH in Hfetch as (answers & Hrec & Hjar & Hres).
      cbn [received cookies] in Hrec, Hjar.
      set (hop := PageResponse statusCode (Some target) setCookie chunks) in *.
      assert (Hhop : is_page_redirect hop = true) by exact Hred.
      exists (hop :: answers).
      split; [rewrite Hrec, <- app_assoc; reflexivity|].
      split; [exact Hjar|].
      destruct r as [data|e].
      * destruct Hres as (hops & l & sc & ch & -> & Hhops & ->).
        exists (hop :: hops), l, sc, ch. repeat split; auto.
        cbn [forallb]. now rewrite Hhop.
      * destruct Hres as [(hops & m & -> & Hhops & ->)
                         | [(hops & code & l & sc & ch & -> & Hhops & Hno & Hcode & ->)
                           | [Hall ->]]].
        -- left. exists (hop :: hops), m. repeat split; auto.
           cbn [forallb]. now rewrite Hhop.
        -- right; left. exists (hop :: hops), code, l, sc, ch.
           repeat split; auto. cbn [forallb]. now rewrite Hhop.
        -- right; right. split; [|reflexivity].
           cbn [forallb]. now rewrite Hhop.
    + exists [PageResponse statusCode location setCookie chunks].
      destruct (statusCode =? 200)%nat eqn:Hcode; injection Hfetch as <- <-;
        (split; [reflexivity|]); (split; [reflexivity|]).
      * apply Nat.eqb_eq in Hcode as ->.
        now exists [], location, setCookie, chunks.
      * apply Nat.eqb_neq in Hcode. right; left.
        now exists [], statusCode, location, setCookie, chunks.
  - injection Hfetch as <- <-. exists [PageError message].
    repeat split. left. now exists [], message.
  - injection Hfetch as <- <-. exists []. rewrite app_nil_r.
    repeat split. right; right. now split.
Qed.

End PageFacts.

(** ** Exceptions of the collection *)

Module ShapeFacts.

Lemma bitrate_sources_unshaped (index : nat) (bitrate : value) :
  entry_shaped bitrate = false ->
  bitrate_sources index bitrate = Throw TypeError.
Proof.
  unfold entry_shaped, bitrate_sources.
  destruct bitrate as [| b | n | s | items | props]; try discriminate;
    try reflexivity.
  cbn [get_prop prop_of res_bind].
  destruct (props !! "PlayAddr") as [pa|]; [|discriminate].
  cbn [truthy_opt]. destruct (truthy pa); [|discriminate].
  destruct (prop_of pa "UrlList") as [urlList|]; [|discriminate].
  destruct (truthy urlList); [|discriminate].
  now destruct urlList.
Qed.

Lemma forEach_bitrate_unshaped (entries : list value) :
  forallb entry_shaped entries = false ->
  forall index, forEach_bitrate index entries = Throw TypeError.
Proof.
  induction entries as [|b entries IH]; [discriminate|].
  cbn [forallb forEach_bitrate]. intros Hshape index.
  destruct (entry_shaped b) eqn:Hb.
  - rewrite ExtractFacts.bitrate_sources_shaped by exact Hb.
    cbn [res_bind]. now rewrite IH.
  - now rewrite bitrate_sources_unshaped.
Qed.

Lemma collect_sources_unshaped (videoData video : value) :
  get_prop videoData "video" = OK (Some video) ->
  truthy video = true ->
  video_shaped video = false ->
  collect_sources videoData = Throw TypeError.
Proof.
  intros Hget Hvideo Hshape.
  rewrite (ExtractFacts.collect_with_video videoData video Hget Hvideo).
  unfold video_shaped in Hshape. unfold bitrateInfo_sources.
  destruct (prop_of video "bitrateInfo") as [[| | | | entries |]|];
    try discriminate.
  now rewrite forEach_bitrate_unshaped.
Qed.

End ShapeFacts.

(** ** Frames *)

Section FrameFacts.
Context `{Network}.

Lemma after_probes_length (probes : list VideoSource) (w : World) :
  (length (probe_answers (map cleaned probes) w) <= length probes)%nat.
Proof.
  revert w; induction probes as [|c probes IH]; intros w; [reflexivity|].
  cbn [map]. rewrite probe_answers_cons.
  destruct (refused (fst (httpsRequest (cleaned c) w))); cbn [length]; [lia|].
  specialize (IH (snd (httpsRequest (cleaned c) w))). lia.
Qed.

Lemma attempt_loop_frame (fuel : nat) (filename : string) :
  forall (attempts : list Attempt) (results results' : list DownloadResult)
         (st st' : state),
    attempt_loop fuel filename attempts results st = Some (results', st') ->
    probed st' = probed st /\ reported st' = reported st.
Proof.
  induction attempts as [|a attempts IH]; intros results results' st st' Hloop.
  - now injection Hloop as <- <-.
  - cbn [attempt_loop] in Hloop.
    destruct (attempt_once fuel filename a results st) as [[results1 st1]|] eqn:Hone;
      [|discriminate].
    destruct (IH _ _ _ _ Hloop) as [Hp Hr]. rewrite Hp, Hr.
    unfold attempt_once in Hone.
    destruct (downloadVideo fuel (attemptUrl a) (attemptFilename_of filename a)
                (note_started (name a) st)) as [[r st2]|] eqn:Hd; [|discriminate].
    apply downloadVideo_frame in Hd as (_ & Hp2 & Hr2). cbn in Hp2, Hr2.
    destruct r as [filePath|e].
    + unfold check_file in Hone.
      destruct (files st2 !! filePath) as [sz|];
        [destruct (MIN_VALID_BYTES <? sz)%N|]; injection Hone as <- <-;
        now split.
    + injection Hone as <- <-. now split.
Qed.

Lemma findBestVideoUrl_reported (videoData : value) (st : state) :
  reported (snd (findBestVideoUrl videoData st)) = reported st
  /\ files (snd (findBestVideoUrl videoData st)) = files st.
Proof.
  unfold findBestVideoUrl.
  destruct (collect_sources videoData) as [videoSources|e]; [|now split].
  rewrite select_source_state.
  destruct (probe_loop_segment (sort_by_priority videoSources) st)
    as (k & _ & ->).
  now split.
Qed.

Lemma getDownloadAddr_frame (videoData : option value) (st : state) :
  files (snd (getDownloadAddr videoData st)) = files st
  /\ match fst (getDownloadAddr videoData st) with
     | Some _ => reported (snd (getDownloadAddr videoData st)) = reported st
     | None => exists e,
         reported (snd (getDownloadAddr videoData st)) = reported st ++ [e]
     end.
Proof.
  unfold getDownloadAddr.
  destruct (truthy_opt videoData) eqn:Htruthy.
  - destruct videoData as [data|]; [|discriminate].
    destruct (findBestVideoUrl_reported data st) as [Hrep Hfiles].
    destruct (findBestVideoUrl data st) as [[info|e] st1];
      cbn [fst snd] in *.
    + now split.
    + split; [exact Hfiles|]. exists e. cbn. now rewrite Hrep.
  - cbn. split; [reflexivity|]. now eexists.
Qed.

End FrameFacts.

(** ** The only source of type [playAddr] *)

Module PlayAddrFacts.

Lemma bitrate_type_not_playAddr (i j : nat) : bitrate_type i j <> "playAddr".
Proof. discriminate. Qed.

Lemma collected_playAddr (videoData video u : value)
    (videoSources : list VideoSource) :
  get_prop videoData "video" = OK (Some video) ->
  truthy video = true ->
  holds video "playAddr" u ->
  collect_sources videoData = OK videoSources ->
  {| url := u; type := "playAddr"; priority := 3; quality := None |} ∈ videoSources
  /\ forall c, c ∈ videoSources -> type c = "playAddr" ->
               c = {| url := u; type := "playAddr"; priority := 3;
                      quality := None |}.
Proof.
  intros Hget Hvideo Hplay.
  rewrite (ExtractFacts.collect_with_video videoData video Hget Hvideo).
  destruct (bitrateInfo_sources video) as [more|e] eqn:Hmore; [|discriminate].
  cbn [res_bind]. intros Heq. injection Heq as <-.
  rewrite (ExtractFacts.field_source_holds _ _ _ _ Hplay). split.
  - rewrite !elem_of_app. right. right. left. now left.
  - intros c Hc Hty. rewrite !elem_of_app in Hc.
    destruct Hc as [Hc | [Hc | [Hc | Hc]]].
    + apply ExtractFacts.field_source_type in Hc as [Hc _]. congruence.
    + apply ExtractFacts.field_source_type in Hc as [Hc _]. congruence.
    + now apply list_elem_of_singleton in Hc.
    + pose proof (ExtractFacts.bitrateInfo_sources_kind _ _ Hmore) as Hkind.
      rewrite Forall_forall in Hkind.
      destruct (Hkind c Hc) as [_ (i & j & Hij)].
      rewrite Hij in Hty. now apply bitrate_type_not_playAddr in Hty.
Qed.

End PlayAddrFacts.

(** ** Membership by comparison *)

Lemma not_elem_of_by_eqb (p : string) (l : list string) :
  forallb (fun q => negb (String.eqb p q)) l = true -> p ∉ l.
Proof.
  induction l as [|q l IH]; cbn [forallb]; intros Hall Hin.
  - inversion Hin.
  - apply andb_true_iff in Hall as [Hq Hall].
    apply elem_of_cons in Hin as [-> | Hin]; [|now apply IH].
    now rewrite String.eqb_refl in Hq.
Qed.

(** * Further properties, by function *)

(** X1.  [getVideoId] returns what follows the last slash of the URL: the
    id has no slash, the URL is the id itself or ends with a slash and the
    id, and a URL built from any text, a slash and a slash-free id gives
    that id back (the empty id for a URL that ends with a slash). *)
Theorem video_id_is_last_segment (url : string) :
  avoids "/" (getVideoId url)
  /\ (url = getVideoId url
      \/ exists base, url = base +:+ "/" +:+ getVideoId url)
  /\ (forall base id, avoids "/" id -> getVideoId (base +:+ "/" +:+ id) = id).
Proof.
  split; [apply IdFacts.getVideoId_avoids|].
  split; [apply IdFacts.getVideoId_tail|].
  intros base id Hid.
  change (base +:+ "/" +:+ id) with (base +:+ String "/" id).
  rewrite IdFacts.getVideoId_after_slash. unfold getVideoId.
  now rewrite IdFacts.split_avoids.
Qed.

Lemma video_id_is_last_segment_witness :
  getVideoId ("https://www.example/@user/video" +:+ "/" +:+ "7535517022529047830")
  = "7535517022529047830".
Proof.
  destruct (video_id_is_last_segment EmptyString) as (_ & _ & Hround).
  apply Hround. cbn. repeat split; discriminate.
Defined.

(** X2.  The sources are collected in ascending order of priority already:
    the sort of line 126 leaves the collected array as it is, so the
    probing order is the order of collection. *)
Theorem collected_in_probing_order (videoData : value)
    (videoSources : list VideoSource) :
  collect_sources videoData = OK videoSources ->
  sort_by_priority videoSources = videoSources.
Proof.
  intros Hcollect.
  apply OrderFacts.sort_sorted_id, (OrderFacts.collect_sources_sorted videoData).
  exact Hcollect.
Qed.

Lemma collected_in_probing_order_witness :
  exists videoSources,
    collect_sources sample_metadata = OK videoSources
    /\ sort_by_priority videoSources = videoSources.
Proof.
  eexists. split; [reflexivity|].
  apply (collected_in_probing_order sample_metadata). reflexivity.
Defined.

(** X3.  An entry of [bitrateInfo] that is [null], or whose truthy
    [PlayAddr.UrlList] is not an array, makes the collection throw a
    [TypeError]: [findBestVideoUrl] fails before any probe, whatever the
    address fields hold, and [getDownloadAddr] reports the error and
    returns [null]. *)
Theorem malformed_bitrate_aborts `{Network} (videoData video : value)
    (st : state) :
  get_prop videoData "video" = OK (Some video) ->
  truthy video = true ->
  video_shaped video = false ->
  collect_sources videoData = Throw TypeError
  /\ findBestVideoUrl videoData st = (Throw TypeError, st)
  /\ getDownloadAddr (Some videoData) st = (None, report TypeError st).
Proof.
  intros Hget Hvideo Hshape.
  pose proof (ShapeFacts.collect_sources_unshaped _ _ Hget Hvideo Hshape)
    as Hcollect.
  assert (Hfind : findBestVideoUrl videoData st = (Throw TypeError, st))
    by (unfold findBestVideoUrl; now rewrite Hcollect).
  split; [exact Hcollect|]. split; [exact Hfind|].
  unfold getDownloadAddr. rewrite Hfind.
  destruct videoData; try discriminate. reflexivity.
Qed.

Lemma malformed_bitrate_aborts_witness :
  findBestVideoUrl (H := playAddr_only) malformed_metadata
    (initial (H := playAddr_only) tt)
  = (Throw TypeError, initial (H := playAddr_only) tt).
Proof.
  apply (malformed_bitrate_aborts (H := playAddr_only) malformed_metadata
           malformed_video (initial (H := playAddr_only) tt));
    reflexivity.
Defined.

(** X4.  A source whose URL is not a string makes the selection throw a
    [TypeError] when its turn comes, that is once the sources before it in
    the sorted list have failed their probes: the sources after it are not
    probed and the fallback is not tried. *)
Theorem non_string_url_stops_selection `{Network}
    (videoSources pre : list VideoSource) (c : VideoSource)
    (post : list VideoSource) (st : state) :
  sort_by_priority videoSources = pre ++ c :: post ->
  forallb string_url pre = true ->
  string_url c = false ->
  probe_answers (map cleaned pre) (net st) = repeat false (length pre) ->
  select_source videoSources st = (Throw TypeError, after_probes pre st)
  /\ probed (after_probes pre st) = probed st ++ map failed_probe pre.
Proof.
  intros Hsorted Hpre Hc Hans. split.
  - rewrite select_source_cons.
    + now rewrite Hsorted, (probe_loop_type_error pre c post st Hpre Hc Hans).
    + intros ->. now destruct pre.
  - unfold after_probes. cbn [probed]. now rewrite Hans, combine_all_failed.
Qed.

Lemma non_string_url_stops_selection_witness :
  select_source (H := playAddr_only) odd_sources (initial (H := playAddr_only) tt)
  = (Throw TypeError, initial (H := playAddr_only) tt).
Proof.
  destruct (non_string_url_stops_selection (H := playAddr_only) odd_sources []
              {| url := JObj (list_to_map [("UrlList", JArr [JStr "https://m.example/d"])]);
                 type := "downloadAddr"; priority := 1; quality := None |}
              [ {| url := JStr sample_playAddr; type := "playAddr"; priority := 3;
                   quality := None |} ]
              (initial (H := playAddr_only) tt) eq_refl eq_refl eq_refl eq_refl)
    as [Hsel _].
  rewrite Hsel. reflexivity.
Defined.

(** X5.  The selection only probes: it leaves the files, the requests and
    the reports as they were, and the probes it makes are those of an
    initial segment of the sorted sources, one probe for each. *)
Theorem selection_only_probes `{Network} (videoSources : list VideoSource)
    (st : state) :
  exists k,
    (k <= length videoSources)%nat
    /\ snd (select_source videoSources st)
       = after_probes (take k (sort_by_priority videoSources)) st
    /\ files (snd (select_source videoSources st)) = files st
    /\ requested (snd (select_source videoSources st)) = requested st
    /\ reported (snd (select_source videoSources st)) = reported st
    /\ (length (probed (snd (select_source videoSources st)))
        <= length (probed st) + length videoSources)%nat.
Proof.
  rewrite select_source_state.
  destruct (probe_loop_segment (sort_by_priority videoSources) st)
    as (k & Hk & ->).
  rewrite <- (Permutation_length (SortFacts.sort_perm videoSources)) in Hk.
  exists k. repeat split; auto.
  unfold after_probes. cbn [probed].
  rewrite length_app, length_combine, length_map.
  pose proof (after_probes_length (take k (sort_by_priority videoSources))
                (net st)) as Hlen.
  rewrite length_take in *. lia.
Qed.

(** X6.  Cleaning a URL of its escaped ampersands is idempotent: a cleaned
    URL is changed by no further cleaning, and a URL without escaped
    ampersand is not changed at all. *)
Theorem cleaning_is_idempotent (u : string) :
  basicClean (basicClean u) = basicClean u
  /\ (if JsString.includes ESCAPED_AMPERSAND u then True else basicClean u = u).
Proof.
  split; [apply NameFacts.basicClean_idempotent|].
  destruct (JsString.includes ESCAPED_AMPERSAND u) eqn:Hinc; [exact I|].
  now apply JsStringFacts.basicClean_absent.
Qed.

(** X7.  The attempts are written to paths that differ from one another,
    and [tryMultipleDownloads] changes no file at any other path; it makes
    no probe and reports nothing. *)
Theorem downloads_touch_only_their_files `{Network} (fuel : nat)
    (videoInfo : VideoInfo) (filename : string) (st : state)
    (results : list DownloadResult) (st' : state) :
  tryMultipleDownloads fuel videoInfo filename st = Some (results, st') ->
  let paths := map (attempt_path filename) (plan_attempts videoInfo) in
  NoDup paths
  /\ (forall p, p ∉ paths -> files st' !! p = files st !! p)
  /\ probed st' = probed st
  /\ reported st' = reported st.
Proof.
  intros Hrun paths. unfold tryMultipleDownloads in Hrun.
  pose proof (NameFacts.attempt_paths_distinct videoInfo filename) as Hdistinct.
  destruct (attempt_loop_files fuel filename _ _ _ _ _ Hrun Hdistinct)
    as (_ & _ & Hframe); [constructor | constructor |].
  destruct (attempt_loop_frame fuel filename _ _ _ _ _ Hrun) as [Hp Hr].
  repeat split; auto.
Qed.

Lemma downloads_touch_only_their_files_witness :
  match tryMultipleDownloads (H := original_only) 1 sample_info
          "7535517022529047830.mp4" (initial (H := original_only) tt) with
  | Some (results, st') => files st' !! "videos/7535517022529047830.mp4" = None
  | None => False
  end.
Proof.
  destruct (tryMultipleDownloads (H := original_only) 1 sample_info
              "7535517022529047830.mp4" (initial (H := original_only) tt))
    as [[results st']|] eqn:Hrun; [|vm_compute in Hrun; discriminate].
  destruct (downloads_touch_only_their_files (H := original_only) 1 sample_info
              "7535517022529047830.mp4" (initial (H := original_only) tt)
              results st' Hrun) as (_ & Hframe & _).
  rewrite Hframe; [apply lookup_empty|].
  apply not_elem_of_by_eqb. vm_compute. reflexivity.
Defined.

(** X8.  Every result [tryMultipleDownloads] returns is backed by a file:
    at the end of the loop the file at the result's path is stored with the
    size the result records, which is above 1024 bytes; the results are no
    more than the attempts, three at most. *)
Theorem results_are_backed_by_files `{Network} (fuel : nat)
    (videoInfo : VideoInfo) (filename : string) (st : state)
    (results : list DownloadResult) (st' : state) :
  tryMultipleDownloads fuel videoInfo filename st = Some (results, st') ->
  Forall (backed_by st') results
  /\ (length results <= length (plan_attempts videoInfo))%nat
  /\ (length results <= 3)%nat.
Proof.
  intros Hrun. unfold tryMultipleDownloads in Hrun.
  pose proof (NameFacts.attempt_paths_distinct videoInfo filename) as Hdistinct.
  destruct (attempt_loop_files fuel filename _ _ _ _ _ Hrun Hdistinct)
    as (Hbacked & Hlen & _); [constructor | constructor |].
  cbn [length] in Hlen. split; [exact Hbacked|]. split; [exact Hlen|].
  etransitivity; [exact Hlen|].
  unfold plan_attempts.
  destruct (JsString.includes "watermark=1" (originalUrl videoInfo)); cbn; lia.
Qed.

Lemma results_are_backed_by_files_witness :
  match tryMultipleDownloads (H := original_only) 1 sample_info
          "7535517022529047830.mp4" (initial (H := original_only) tt) with
  | Some (results, st') => Forall (backed_by st') results
  | None => False
  end.
Proof.
  destruct (tryMultipleDownloads (H := original_only) 1 sample_info
              "7535517022529047830.mp4" (initial (H := original_only) tt))
    as [[results st']|] eqn:Hrun; [|vm_compute in Hrun; discriminate].
  exact (proj1 (results_are_backed_by_files (H := original_only) 1 sample_info
                  "7535517022529047830.mp4" (initial (H := original_only) tt)
                  results st' Hrun)).
Defined.

(** X9.  [run] returns the video id only when at least one file above 1024
    bytes is on disk, and then nothing has been reported; it returns
    [null] exactly when it has reported an error: either
    [AllDownloadsFailed] alone, or the error of [getDownloadAddr] followed
    by [Failed to get video URLs], in which case no file has been
    touched. *)
Theorem run_outcome `{Network} (fuel : nat) (videoData : option value)
    (videoId : string) (st : state) (r : option string) (st' : state) :
  run fuel videoData videoId st = Some (r, st') ->
  match r with
  | Some id =>
      id = videoId /\ reported st' = reported st
      /\ exists p sz, files st' !! p = Some sz /\ (MIN_VALID_BYTES < sz)%N
  | None =>
      reported st' = reported st ++ [AllDownloadsFailed]
      \/ (exists e,
            reported st' = reported st ++ [e; Error "Failed to get video URLs"]
            /\ files st' = files st)
  end.
Proof.
  unfold run. intros Hrun.
  destruct (getDownloadAddr_frame videoData st) as [Hfiles Hrep].
  destruct (getDownloadAddr videoData st) as [[info|] st1]; cbn [fst snd] in *.
  - destruct (tryMultipleDownloads fuel info (videoId +:+ ".mp4") st1)
      as [[results st2]|] eqn:Htry; [|discriminate].
    unfold tryMultipleDownloads in Htry.
    destruct (attempt_loop_frame fuel _ _ _ _ _ _ Htry) as [_ Hrep2].
    pose proof (NameFacts.attempt_paths_distinct info (videoId +:+ ".mp4"))
      as Hdistinct.
    destruct (attempt_loop_files fuel _ _ _ _ _ _ Htry Hdistinct)
      as (Hbacked & _ & _); [constructor | constructor |].
    destruct results as [|r0 results]; injection Hrun as <- <-.
    + left. cbn. now rewrite Hrep2, Hrep.
    + split; [reflexivity|]. split; [now rewrite Hrep2, Hrep|].
      apply Forall_cons_1 in Hbacked as [[Hfile Hsize] _].
      now exists (path r0), (size r0).
  - injection Hrun as <- <-. right. destruct Hrep as [e He].
    exists e. cbn. rewrite He, <- app_assoc. split; [reflexivity | exact Hfiles].
Qed.

Lemma run_outcome_witness :
  exists st',
    run (H := original_only) 1 None "7535517022529047830"
      (initial (H := original_only) tt) = Some (None, st')
    /\ files st' = ∅.
Proof.
  eexists. split; [reflexivity|].
  destruct (run_outcome (H := original_only) 1 None "7535517022529047830"
              (initial (H := original_only) tt) None _ eq_refl)
    as [Hall | (e & _ & Hfiles)].
  - discriminate Hall.
  - exact Hfiles.
Defined.

(** X10.  For the file name [id + '.mp4'] of [run], with an [id] in which
    [.mp4] does not occur, the file of an attempt is
    [videos/<id><suffix>.mp4]. *)
Theorem attempt_file_names (id : string) (attempt : Attempt) :
  JsString.includes ".mp4" id = false ->
  attemptFilename_of (id +:+ ".mp4") attempt = id +:+ suffix attempt +:+ ".mp4"
  /\ attempt_path (id +:+ ".mp4") attempt
     = "videos/" +:+ id +:+ suffix attempt +:+ ".mp4".
Proof.
  intros Hid. unfold attempt_path, filePath_of, attemptFilename_of.
  now rewrite NameFacts.extension_stripped.
Qed.

Lemma attempt_file_names_witness :
  attempt_path ("7535517022529047830" +:+ ".mp4")
    {| attemptUrl := sample_playAddr_clean; name := "Watermark Modified";
       suffix := "_no_watermark" |}
  = "videos/7535517022529047830_no_watermark.mp4".
Proof.
  destruct (attempt_file_names "7535517022529047830"
              {| attemptUrl := sample_playAddr_clean;
                 name := "Watermark Modified"; suffix := "_no_watermark" |}
              eq_refl) as [_ Hpath].
  rewrite Hpath. reflexivity.
Defined.

(** X11.  When the source URL contains [watermark=1], the third attempt
    carries a URL with neither [watermark=1] nor [logo=1] in it; when the
    source URL has no [logo=1], that URL is the one of the second attempt,
    which is then downloaded twice. *)
Theorem full_modified_attempt (videoInfo : VideoInfo) :
  JsString.includes "watermark=1" (originalUrl videoInfo) = true ->
  exists second third,
    plan_attempts videoInfo !! 1%nat = Some second
    /\ plan_attempts videoInfo !! 2%nat = Some third
    /\ name third = "Full Parameter Modified"
    /\ JsString.includes "watermark=1" (attemptUrl third) = false
    /\ JsString.includes "logo=1" (attemptUrl third) = false
    /\ (JsString.includes "logo=1" (originalUrl videoInfo) = false ->
        attemptUrl third = attemptUrl second).
Proof.
  intros Hmark. unfold plan_attempts. rewrite Hmark.
  eexists. eexists. split; [reflexivity|]. split; [reflexivity|].
  cbn [name attemptUrl]. split; [reflexivity|]. split.
  - apply NameFacts.logo_rewrite_keeps_clear, JsStringFacts.watermark_rewritten.
  - split; [apply NameFacts.logo_rewritten|].
    intros Hlogo. apply JsStringFacts.replace_all_absent.
    now apply NameFacts.watermark_rewrite_keeps_clear.
Qed.

Lemma full_modified_attempt_witness :
  exists third,
    plan_attempts sample_info !! 2%nat = Some third
    /\ JsString.includes "logo=1" (attemptUrl third) = false.
Proof.
  destruct (full_modified_attempt sample_info eq_refl)
    as (second & third & _ & Hthird & _ & _ & Hlogo & _).
  exists third. split; [exact Hthird | exact Hlogo].
Defined.

(** X12.  A download that reaches a 200 response through [n] redirects
    resolves with the path [videos/<filename>], whatever URL served it; the
    file there holds the body of that response, the files at other paths
    are as before, and [n + 1] requests were made.  When the [Location] of
    the last redirect is an address [https.get] refuses, the download
    rejects with a [TypeError] after [n] requests instead, and the file
    created for it stays, empty. *)
Theorem download_stores_final_body `{Network} (filename : string) (n : nat)
    (u : string) (st : state) (u' : string) (st' : state) :
  redirects filename n u st u' st' ->
  (forall location bodySize,
     fst (httpsGet u' (net st')) = GetResponse 200 location bodySize ->
     exists st'',
       downloadVideo (n + 1) u filename st
       = Some (OK (filePath_of filename), st'')
       /\ files st'' !! filePath_of filename = Some bodySize
       /\ (forall p, p <> filePath_of filename ->
                     files st'' !! p = files st !! p)
       /\ length (requested st'') = (length (requested st) + n + 1)%nat)
  /\ (fst (httpsGet u' (net st')) = GetInvalidUrl ->
      exists st'',
        downloadVideo (n + 1) u filename st = Some (Throw TypeError, st'')
        /\ files st'' !! filePath_of filename = Some 0%N
        /\ (forall p, p <> filePath_of filename ->
                      files st'' !! p = files st !! p)
        /\ length (requested st'') = (length (requested st) + n)%nat).
Proof.
  intros Hchain. split.
  - intros location bodySize Hlast.
    destruct (downloadVideo_after_redirects filename n u st u' st' location
                bodySize Hchain Hlast) as (st'' & Hd & Hfile & Hreq).
    exists st''. split; [exact Hd|]. split; [exact Hfile|]. split; [|exact Hreq].
    intros p Hp. exact (downloadVideo_other_files _ _ _ _ _ _ _ Hd Hp).
  - intros Hlast.
    pose proof (redirects_followed filename n u st u' st' Hchain 1) as Hd.
    rewrite (refused_url_keeps_file 0 u' filename st' Hlast) in Hd.
    eexists. split; [exact Hd|]. split; [cbn; apply lookup_insert_eq|].
    split.
    + intros p Hp. exact (downloadVideo_other_files _ _ _ _ _ _ _ Hd Hp).
    + cbn [requested set_files].
      exact (redirects_requested filename n u st u' st' Hchain).
Qed.

Lemma download_stores_final_body_witness :
  (exists st'',
     downloadVideo (H := redirect_chain) 4 "https://v16.example/0" "7.mp4"
       (initial (H := redirect_chain) tt) = Some (OK "videos/7.mp4", st'')
     /\ files st'' !! "videos/7.mp4" = Some 2048%N)
  /\ (exists st'',
        downloadVideo (H := relative_redirect) 2 "https://v16.example/r" "7.mp4"
          (initial (H := relative_redirect) tt) = Some (Throw TypeError, st'')
        /\ files st'' !! "videos/7.mp4" = Some 0%N
        /\ length (requested st'') = 1%nat).
Proof.
  split.
  - destruct (download_stores_final_body (H := redirect_chain) "7.mp4" 3
                "https://v16.example/0" (initial (H := redirect_chain) tt)
                "https://v16.example/3" _ ltac:(follow_chain))
      as [Hserved _].
    destruct (Hserved None 2048%N eq_refl) as (st'' & Hd & Hfile & _).
    exists st''. split; [exact Hd | exact Hfile].
  - destruct (download_stores_final_body (H := relative_redirect) "7.mp4" 1
                "https://v16.example/r" (initial (H := relative_redirect) tt)
                "/next" _ ltac:(follow_chain))
      as [_ Hrefused].
    destruct (Hrefused eq_refl) as (st'' & Hd & Hfile & _ & Hreq).
    exists st''. split; [exact Hd|]. split; [exact Hfile | exact Hreq].
Defined.

(** X13.  The probe counts every status from 200 to 399 as accessible,
    while the download, once the response is not a redirect it can follow,
    resolves for status 200 only and rejects every other status; a 3xx
    response without [Location] header, or with an empty one, is not
    followed. *)
Theorem probe_accepts_more_than_download `{Network} :
  (forall statusCode,
      isWorking statusCode = true <-> (200 <= statusCode < 400)%nat)
  /\ (forall statusCode,
        is_redirect statusCode None = false
        /\ is_redirect statusCode (Some EmptyString) = false)
  /\ (forall fuel u filename st statusCode location bodySize,
        fst (httpsGet u (net st)) = GetResponse statusCode location bodySize ->
        is_redirect statusCode location = false ->
        exists st',
          downloadVideo (S fuel) u filename st
          = Some (if (statusCode =? 200)%nat then OK (filePath_of filename)
                  else Throw (status_error statusCode), st')).
Proof.
  split; [|split].
  - intros statusCode. unfold isWorking.
    rewrite orb_true_iff, !andb_true_iff, !Nat.leb_le, !Nat.ltb_lt. lia.
  - intros statusCode. unfold is_redirect. now rewrite !andb_false_r.
  - intros fuel u filename st statusCode location bodySize Hget Hred.
    rewrite downloadVideo_S. cbn zeta. rewrite Hget, Hred.
    destruct (statusCode =? 200)%nat; cbn [negb]; eexists; reflexivity.
Qed.

Lemma probe_accepts_more_than_download_witness :
  isWorking 206 = true
  /\ exists st',
       downloadVideo (H := original_only) 1 "https://v16.example/other" "7.mp4"
         (initial (H := original_only) tt)
       = Some (Throw (status_error 404), st').
Proof.
  destruct (probe_accepts_more_than_download (H := original_only))
    as (Hprobe & _ & Hdownload).
  split; [apply Hprobe; lia|].
  exact (Hdownload 0%nat "https://v16.example/other" "7.mp4"
           (initial (H := original_only) tt) 404%nat None 0%N eq_refl eq_refl).
Defined.

(** X14.  A rejected download leaves at its path either no file or an
    empty one, whatever was stored there before, and changes no other
    file; after an ['error'] event of the request there is no file. *)
Theorem rejected_download_leaves_no_content `{Network} (fuel : nat)
    (u filename : string) (st : state) (e : error) (st' : state) :
  downloadVideo fuel u filename st = Some (Throw e, st') ->
  (files st' !! filePath_of filename = None
   \/ files st' !! filePath_of filename = Some 0%N)
  /\ (forall p, p <> filePath_of filename -> files st' !! p = files st !! p)
  /\ (forall message,
        fst (httpsGet u (net st)) = GetError message ->
        files st' !! filePath_of filename = None).
Proof.
  intros Hd. split; [exact (downloadVideo_own_file _ _ _ _ _ _ Hd)|].
  split; [intros p Hp; exact (downloadVideo_other_files _ _ _ _ _ _ _ Hd Hp)|].
  intros message Hget. destruct fuel as [|fuel]; [discriminate|].
  destruct (request_error_unlinks fuel u filename st message Hget)
    as (st1 & Hd1 & Hgone).
  rewrite Hd1 in Hd. now injection Hd as _ <-.
Qed.

Lemma rejected_download_leaves_no_content_witness :
  exists st',
    downloadVideo (H := playAddr_only) 1 "https://v16.example/p" "7.mp4"
      (set_files (<["videos/7.mp4" := 4096%N]> ∅) (initial (H := playAddr_only) tt))
    = Some (Throw (Error "ECONNREFUSED"), st')
    /\ files st' !! "videos/7.mp4" = None.
Proof.
  eexists. split; [reflexivity|].
  destruct (rejected_download_leaves_no_content (H := playAddr_only) 1
              "https://v16.example/p" "7.mp4"
              (set_files (<["videos/7.mp4" := 4096%N]> ∅)
                 (initial (H := playAddr_only) tt))
              (Error "ECONNREFUSED") _ eq_refl) as (_ & _ & Hgone).
  exact (Hgone "ECONNREFUSED" eq_refl).
Defined.

(** X15.  When the standard path
    [__DEFAULT_SCOPE__ / webapp.video-detail / itemInfo / itemStruct] holds
    a truthy value, that value is the video data, whatever else the page
    holds and in whatever order its keys are listed; and whichever way it
    was found, the video data is truthy, so [findBestVideoUrl] is never
    called on [null]. *)
Theorem standard_path_preferred (parsedJson : value) :
  (truthy_opt (standard_path parsedJson) = true ->
   forall keys, locate_videoData keys parsedJson = OK (standard_path parsedJson))
  /\ (forall keys v,
        locate_videoData keys parsedJson = OK (Some v) -> truthy v = true).
Proof.
  split.
  - intros Hstd keys.
    assert (Hnull : parsedJson <> JNull) by (intros ->; discriminate).
    rewrite LocateFacts.locate_videoData_eq by exact Hnull. now rewrite Hstd.
  - intros keys v. apply LocateFacts.locate_videoData_truthy.
Qed.

Lemma standard_path_preferred_witness :
  locate_videoData ["other"; "__DEFAULT_SCOPE__"] sample_page
  = OK (Some sample_metadata).
Proof.
  destruct (standard_path_preferred sample_page) as [Hstd _].
  rewrite (Hstd eq_refl). reflexivity.
Defined.

(** X16.  For a page that is an object whose keys are all listed, no video
    data is found exactly when the standard path holds nothing truthy and
    no property of the page has a truthy [itemInfo.itemStruct];
    [getDownloadAddr] then reports [Video data not found in JSON] and
    returns [null] without a probe. *)
Theorem video_data_not_found `{Network} (keys : list string)
    (props : gmap string value) (st : state) :
  (forall key, key ∈ keys <-> is_Some (props !! key)) ->
  (locate_videoData keys (JObj props) = OK None <->
   truthy_opt (standard_path (JObj props)) = false
   /\ forall key v, props !! key = Some v ->
                    truthy_opt (itemStruct_of (Some v)) = false)
  /\ (locate_videoData keys (JObj props) = OK None ->
      getDownloadAddr_parsed keys (JObj props) st
      = (None, report (Error "Video data not found in JSON") st)).
Proof.
  intros Hkeys. rewrite LocateFacts.locate_videoData_eq by discriminate.
  split; [split|].
  - destruct (truthy_opt (standard_path (JObj props))) eqn:Hstd.
    + intros Heq. injection Heq as Heq. rewrite Heq in Hstd. discriminate.
    + intros Heq. injection Heq as Heq. split; [reflexivity|].
      intros key v Hv.
      apply (proj1 (LocateFacts.search_none _) Heq (Some v)).
      cbn [own_values]. apply list_elem_of_In, in_map_iff.
      exists key. split; [exact Hv|].
      apply list_elem_of_In, Hkeys. now rewrite Hv.
  - intros [Hstd Hnone]. rewrite Hstd. f_equal.
    apply LocateFacts.search_none. intros c Hc. cbn [own_values] in Hc.
    apply list_elem_of_In, in_map_iff in Hc as (key & <- & _).
    destruct (props !! key) as [v|] eqn:Hv; [now apply (Hnone key)|reflexivity].
  - intros Hnone. injection Hnone as Hnone. unfold getDownloadAddr_parsed.
    rewrite LocateFacts.locate_videoData_eq by discriminate.
    cbn [own_values]. rewrite Hnone. reflexivity.
Qed.

Lemma video_data_not_found_witness :
  getDownloadAddr_parsed (H := playAddr_only) ["id"]
    (JObj (list_to_map [("id", JStr "7535517022529047830")]))
    (initial (H := playAddr_only) tt)
  = (None, report (Error "Video data not found in JSON")
             (initial (H := playAddr_only) tt)).
Proof.
  assert (Hkeys : forall key,
             key ∈ ["id"] <->
             is_Some ((list_to_map [("id", JStr "7535517022529047830")]
                       : gmap string value) !! key)).
  { intros key. rewrite list_elem_of_singleton. cbn [list_to_map foldr uncurry].
    rewrite lookup_insert. case_decide as Hk.
    - subst key. split; [intros _; now eexists | reflexivity].
    - rewrite lookup_empty. split; [intros ->; now destruct Hk|].
      intros [v Hv]. discriminate. }
  destruct (video_data_not_found (H := playAddr_only) ["id"]
              (list_to_map [("id", JStr "7535517022529047830")])
              (initial (H := playAddr_only) tt) Hkeys) as [_ Hreport].
  apply Hreport. reflexivity.
Defined.

(** X17.  [fetchPage] resolves only with the body of a response of status
    200, the chunks of that body put together in order, and every answer
    before it was a redirect that was followed.  It rejects in three ways:
    on an error event of the request; on a response, not a redirect to
    follow, whose status is not 200; with a [TypeError] when [https.get]
    refuses the URL it is given, be it the URL of the call or the
    [Location] of the last redirect received. *)
Theorem page_comes_from_status_200 `{PageServer} (fuel : nat) (url : string)
    (st : page_state) (r : res string) (st' : page_state) :
  fetchPage fuel url st = Some (r, st') ->
  exists answers,
    received st' = received st ++ answers
    /\ match r with
       | OK data =>
           exists hops location setCookie chunks,
             answers = hops ++ [PageResponse 200 location setCookie chunks]
             /\ forallb is_page_redirect hops = true
             /\ data = String.concat EmptyString chunks
       | Throw e =>
           (exists hops message,
              answers = hops ++ [PageError message]
              /\ forallb is_page_redirect hops = true
              /\ e = Error message)
           \/ (exists hops statusCode location setCookie chunks,
                 answers
                 = hops ++ [PageResponse statusCode location setCookie chunks]
                 /\ forallb is_page_redirect hops = true
                 /\ is_redirect statusCode location = false
                 /\ statusCode <> 200%nat /\ e = page_error statusCode)
           \/ (forallb is_page_redirect answers = true /\ e = TypeError)
       end.
Proof.
  intros Hfetch.
  destruct (fetchPage_trace fuel url st r st' Hfetch)
    as (answers & Hrec & _ & Hres).
  now exists answers.
Qed.

Lemma page_comes_from_status_200_witness :
  match fetchPage (H := short_link) 2 "https://vm.example/ZM1"
          (empty_pages (H := short_link) tt) with
  | Some (OK data, st') =>
      exists hops location setCookie chunks,
        received st' = hops ++ [PageResponse 200 location setCookie chunks]
        /\ forallb is_page_redirect hops = true
        /\ data = String.concat EmptyString chunks
  | _ => False
  end.
Proof.
  destruct (fetchPage (H := short_link) 2 "https://vm.example/ZM1"
              (empty_pages (H := short_link) tt)) as [[r st']|] eqn:Hfetch;
    [|discriminate].
  destruct (page_comes_from_status_200 (H := short_link) 2
              "https://vm.example/ZM1" (empty_pages (H := short_link) tt)
              r st' Hfetch)
    as (answers & Hrec & Hres).
  destruct r as [data|e]; [|vm_compute in Hfetch; discriminate].
  destruct Hres as (hops & location & setCookie & chunks & -> & Hhops & ->).
  now exists hops, location, setCookie, chunks.
Defined.

(** X18.  The cookie jar after a fetch is that of the last answer that
    carried [Set-Cookie] headers, its values joined with [; ]: the cookies
    of earlier answers are replaced, not merged; when no answer carried
    such a header the jar is as before. *)
Theorem cookies_follow_last_set_cookie `{PageServer} (fuel : nat)
    (url : string) (st : page_state) (r : res string) (st' : page_state) :
  fetchPage fuel url st = Some (r, st') ->
  exists answers,
    received st' = received st ++ answers
    /\ cookies st' = jar_after answers (cookies st)
    /\ (forall earlier statusCode location values chunks,
          answers = earlier ++ [PageResponse statusCode location (Some values) chunks] ->
          cookies st' = JsSplit.join "; " values)
    /\ (Forall (fun ev => forall statusCode location values chunks,
                  ev <> PageResponse statusCode location (Some values) chunks)
          answers ->
        cookies st' = cookies st).
Proof.
  intros Hfetch.
  destruct (fetchPage_trace fuel url st r st' Hfetch)
    as (answers & Hrec & Hjar & _).
  exists answers. split; [exact Hrec|]. split; [exact Hjar|]. split.
  - intros earlier statusCode location values chunks Heq.
    rewrite Hjar, Heq, jar_after_app. reflexivity.
  - rewrite Hjar. generalize (cookies st). clear.
    intros jar Hall. revert jar.
    induction Hall as [|ev answers Hev _ IH]; intros jar; [reflexivity|].
    unfold jar_after in *. cbn [fold_left]. rewrite IH.
    destruct ev as [statusCode location [values|] chunks | message | |];
      try reflexivity.
    now destruct (Hev statusCode location values chunks).
Qed.

Lemma cookies_follow_last_set_cookie_witness :
  match fetchPage (H := short_link) 2 "https://vm.example/ZM1"
          (empty_pages (H := short_link) tt) with
  | Some (r, st') => cookies st' = "tt_webid=9; msToken=x"
  | None => False
  end.
Proof.
  destruct (fetchPage (H := short_link) 2 "https://vm.example/ZM1"
              (empty_pages (H := short_link) tt)) as [[r st']|] eqn:Hfetch;
    [|discriminate].
  destruct (cookies_follow_last_set_cookie (H := short_link) 2
              "https://vm.example/ZM1" (empty_pages (H := short_link) tt)
              r st' Hfetch)
    as (answers & Hrec & _ & Hlast & _).
  vm_compute in Hfetch. injection Hfetch as _ <-. cbn in Hrec. subst answers.
  exact (Hlast [PageResponse 301 (Some "https://www.example/@u/video/7")
                  (Some ["a=1"; "b=2"]) []]
           200%nat None ["tt_webid=9"; "msToken=x"] ["<html>"; "</html>"]
           eq_refl).
Defined.

(** X19.  When the [playAddr] field holds a non-empty string and every
    collected URL is a string that [https.request] takes,
    [findBestVideoUrl] always returns a source; when no probe succeeds, the
    source it returns is the cleaned [playAddr] URL with priority 3 under
    the fallback label. *)
Theorem playAddr_guarantees_a_source `{Network} (videoData video : value)
    (p : string) (videoSources : list VideoSource) (st : state) :
  get_prop videoData "video" = OK (Some video) ->
  truthy video = true ->
  holds video "playAddr" (JStr p) ->
  collect_sources videoData = OK videoSources ->
  forallb string_url videoSources = true ->
  Forall accepted (map cleaned videoSources) ->
  exists info st',
    findBestVideoUrl videoData st = (OK info, st')
    /\ (probe_answers (map cleaned videoSources) (net st)
          = repeat false (length videoSources) ->
        info = {| originalUrl := basicClean p; infoType := "playAddr (fallback)";
                  infoPriority := 3 |}).
Proof.
  intros Hget Hvideo Hplay Hcollect Hstr Haccepted.
  destruct (PlayAddrFacts.collected_playAddr _ _ _ _ Hget Hvideo Hplay Hcollect)
    as [Hin Honly].
  pose proof (OrderFacts.sort_sorted_id _
                (OrderFacts.collect_sources_sorted _ _ Hcollect)) as Hsorted.
  assert (Hne : videoSources <> []) by (intros ->; inversion Hin).
  unfold findBestVideoUrl. rewrite Hcollect.
  rewrite select_source_cons by exact Hne. rewrite Hsorted.
  destruct (first_answer videoSources st)
    as [Hall | [(pre & c & post & Hsplit & Hans)
               | (pre & c & post & Hsplit & _ & Hrefused)]].
  - rewrite (probe_loop_failed videoSources st Hstr Hall).
    destruct (fallback_source_spec videoSources Hstr)
      as [(c & _ & Hc & Hty & ->) | [Hnone _]].
    + rewrite (Honly c Hc Hty). eexists. eexists. split; [reflexivity|].
      reflexivity.
    + exfalso. now apply (Hnone _ Hin).
  - assert (Hstr' : forallb string_url (pre ++ [c]) = true).
    { rewrite Hsplit, forallb_app in Hstr. rewrite forallb_app.
      cbn [forallb] in *.
      apply andb_true_iff in Hstr as [Hpre Hc].
      apply andb_true_iff in Hc as [Hc _]. now rewrite Hpre, Hc. }
    assert (Hloop : probe_loop videoSources st
                    = (OK (Some (resolved c)), after_probes (pre ++ [c]) st))
      by (rewrite Hsplit; exact (probe_loop_found pre c post st Hstr' Hans)).
    rewrite Hloop.
    eexists. eexists. split; [reflexivity|].
    intros Hall. exfalso.
    rewrite Hsplit in Hall. rewrite map_app, length_app in Hall.
    cbn [map length] in Hall.
    assert (Hprefix : probe_answers (map cleaned (pre ++ [c])) (net st)
                      = repeat false (length pre) ++ [false]).
    { clear -Hall. revert Hall. generalize (net st).
      induction pre as [|a pre IH]; intros w Hall.
      - cbn [app map length repeat Nat.add] in *.
        apply probe_answers_head in Hall as (Hr & Ha & _).
        now rewrite probe_answers_cons, Hr, Ha.
      - cbn [app map length repeat Nat.add] in *.
        apply probe_answers_head in Hall as (Hr & Ha & Hall).
        rewrite probe_answers_cons, Hr, Ha.
        f_equal. now apply IH. }
    rewrite Hprefix in Hans. apply app_inv_head in Hans. discriminate.
  - exfalso. rewrite Hsplit, map_app in Haccepted.
    apply Forall_app in Haccepted as [_ Hc]. cbn [map] in Hc.
    apply Forall_cons in Hc as [Hc _].
    specialize (Hc (net (after_probes pre st))). congruence.
Qed.

Lemma playAddr_guarantees_a_source_witness :
  exists info st',
    findBestVideoUrl (H := nothing_reachable) sample_metadata
      (initial (H := nothing_reachable) tt) = (OK info, st')
    /\ info = {| originalUrl := basicClean sample_playAddr;
                 infoType := "playAddr (fallback)"; infoPriority := 3 |}.
Proof.
  destruct (playAddr_guarantees_a_source (H := nothing_reachable)
              sample_metadata sample_video sample_playAddr _
              (initial (H := nothing_reachable) tt)
              eq_refl eq_refl (conj eq_refl eq_refl) eq_refl eq_refl)
    as (info & st' & Hfind & Hfallback).
  - repeat constructor.
  - exists info, st'. split; [exact Hfind|]. now apply Hfallback.
Defined.

(** X20.  The sources are sorted by ascending priority, sources of equal
    priority keeping the order in which they were found (which leaves one
    possible result), and probed in that order; when the probes of the
    sources before [c] are answered [false] and that of [c] is answered
    [true], [c] is returned and nothing after it is probed.  The URL that
    is probed and returned is the source's URL with every escaped ampersand
    replaced by [&].  In particular, when [downloadAddr], [playAddrH264] and
    [playAddr] are present and their probes are answered [false], [false]
    and [true], the [playAddr] source is returned. *)
Theorem first_accessible_source_selected `{Network}
    (videoSources : list VideoSource) (st : state) :
  let sorted := sort_by_priority videoSources in
  (StronglySorted by_priority sorted
   /\ Permutation videoSources sorted
   /\ (forall p, List.filter (has_priority p) sorted
                 = List.filter (has_priority p) videoSources)
   /\ (forall l, StronglySorted by_priority l ->
                 (forall p, List.filter (has_priority p) l
                            = List.filter (has_priority p) videoSources) ->
                 l = sorted))
  /\ (forall pre c post,
        sorted = pre ++ c :: post ->
        forallb string_url (pre ++ [c]) = true ->
        probe_answers (map cleaned (pre ++ [c])) (net st)
          = repeat false (length pre) ++ [true] ->
        select_source videoSources st
          = (OK (resolved c), after_probes (pre ++ [c]) st)
        /\ probed (after_probes (pre ++ [c]) st)
           = probed st ++ map failed_probe pre ++ [(cleaned c, true)])
  /\ (forall c s,
        url c = JStr s ->
        cleaned c = JsString.replace_all ESCAPED_AMPERSAND "&" s
        /\ JsString.includes ESCAPED_AMPERSAND (cleaned c) = false)
  /\ (forall videoData video d h p,
        get_prop videoData "video" = OK (Some video) ->
        truthy video = true ->
        video_shaped video = true ->
        holds video "downloadAddr" (JStr d) ->
        holds video "playAddrH264" (JStr h) ->
        holds video "playAddr" (JStr p) ->
        probe_answers [basicClean d; basicClean h; basicClean p] (net st)
          = [false; false; true] ->
        exists st',
          findBestVideoUrl videoData st
            = (OK {| originalUrl := basicClean p; infoType := "playAddr";
                     infoPriority := 3 |}, st')
          /\ probed st'
             = probed st ++ [(basicClean d, false); (basicClean h, false);
                             (basicClean p, true)]).
Proof.
  intros sorted.
  assert (Hgeneral : forall (sources : list VideoSource) pre c post,
            sort_by_priority sources = pre ++ c :: post ->
            forallb string_url (pre ++ [c]) = true ->
            probe_answers (map cleaned (pre ++ [c])) (net st)
              = repeat false (length pre) ++ [true] ->
            select_source sources st
              = (OK (resolved c), after_probes (pre ++ [c]) st)
            /\ probed (after_probes (pre ++ [c]) st)
               = probed st ++ map failed_probe pre ++ [(cleaned c, true)]).
  { intros sources pre c post Hsorted Hstr Hans. split.
    - rewrite select_source_cons.
      + rewrite Hsorted, (probe_loop_found pre c post st Hstr Hans).
        reflexivity.
      + intros ->. now destruct pre.
    - unfold after_probes. cbn [probed]. now rewrite Hans, combine_failed. }
  split; [|split; [|split]].
  - split; [apply SortFacts.sort_sorted|].
    split; [apply SortFacts.sort_perm|].
    split; [intros p; apply SortFacts.sort_stable|].
    intros l Hl Hstable.
    apply SortFacts.stable_sorted_unique;
      [exact Hl | apply SortFacts.sort_sorted|].
    intros p. rewrite Hstable. symmetry. apply SortFacts.sort_stable.
  - apply Hgeneral.
  - intros c s Hurl. unfold cleaned. rewrite Hurl.
    split; [reflexivity | apply JsStringFacts.escape_rewritten].
  - intros videoData video d h p Hget Hvideo Hshape Hd Hh Hp Hans.
    destruct (ExtractFacts.bitrateInfo_sources_spec video Hshape)
      as (more & Hmore & _).
    pose proof (ExtractFacts.bitrateInfo_sources_priority video more Hmore)
      as Hprio.
    set (cd := {| url := JStr d; type := "downloadAddr"; priority := 1;
                  quality := None |}).
    set (ch := {| url := JStr h; type := "playAddrH264"; priority := 2;
                  quality := None |}).
    set (cp := {| url := JStr p; type := "playAddr"; priority := 3;
                  quality := None |}).
    assert (Hcollect : collect_sources videoData = OK (cd :: ch :: cp :: more)).
    { rewrite (ExtractFacts.collect_with_video videoData video Hget Hvideo).
      rewrite Hmore. cbn [res_bind].
      rewrite (ExtractFacts.field_source_holds _ _ _ _ Hd),
        (ExtractFacts.field_source_holds _ _ _ _ Hh),
        (ExtractFacts.field_source_holds _ _ _ _ Hp).
      reflexivity. }
    assert (Hsort : sort_by_priority (cd :: ch :: cp :: more)
                    = [cd; ch] ++ cp :: sort_by_priority more).
    { assert (Hafter : forall x, priority x <= 3 ->
                Forall (by_priority x) more).
      { intros x Hx. eapply List.Forall_impl; [|exact Hprio].
        intros c Hc. cbn beta in Hc. unfold by_priority. lia. }
      rewrite !SortFacts.sort_cons_min; [reflexivity | | |];
        repeat (constructor; [unfold by_priority, cd, ch, cp; cbn; lia|]);
        apply Hafter; unfold cd, ch, cp; cbn; lia. }
    destruct (Hgeneral _ _ _ _ Hsort eq_refl Hans) as [Hsel Hlog].
    exists (after_probes ([cd; ch] ++ [cp]) st).
    unfold findBestVideoUrl. rewrite Hcollect. split; [exact Hsel | exact Hlog].
Qed.

Lemma first_accessible_source_selected_witness :
  fst (select_source (H := playAddr_only) sample_sources (initial (H := playAddr_only) tt))
    = OK sample_info
  /\ exists st',
       findBestVideoUrl (H := playAddr_only) sample_metadata
         (initial (H := playAddr_only) tt)
         = (OK {| originalUrl := basicClean sample_playAddr;
                  infoType := "playAddr"; infoPriority := 3 |}, st')
       /\ probed st'
          = [(basicClean sample_downloadAddr, false);
             (basicClean sample_playAddrH264, false);
             (basicClean sample_playAddr, true)].
Proof.
  pose proof (first_accessible_source_selected (H := playAddr_only)
                sample_sources (initial (H := playAddr_only) tt))
    as (_ & Hselect & _ & Hmetadata).
  split.
  - destruct (Hselect
                [ {| url := JStr sample_downloadAddr; type := "downloadAddr";
                     priority := 1; quality := None |} ]
                {| url := JStr sample_playAddr; type := "playAddr";
                   priority := 3; quality := None |}
                [ {| url := JStr "https://m.example/0a"; type := bitrate_type 0 0;
                     priority := 4; quality := Some (JNum 20) |};
                  {| url := JStr "https://m.example/0b"; type := bitrate_type 0 1;
                     priority := 4; quality := Some (JNum 20) |} ])
      as [Hresult _]; [reflexivity | reflexivity | reflexivity |].
    rewrite Hresult. reflexivity.
  - apply (Hmetadata sample_metadata sample_video sample_downloadAddr
             sample_playAddrH264 sample_playAddr);
      try reflexivity; split; reflexivity.
Defined.

(** X21.  On a non-empty sequence of sources whose probes are all answered
    [false], the selection returns the source of type [playAddr], its URL
    cleaned of escaped ampersands, when there is one; it fails with
    [NoAccessibleSource] exactly when every probe is answered [false] and
    no source has the type [playAddr]. *)
Theorem playAddr_fallback `{Network}
    (videoSources : list VideoSource) (st : state) :
  videoSources <> [] ->
  forallb string_url videoSources = true ->
  let sorted := sort_by_priority videoSources in
  (probe_answers (map cleaned sorted) (net st) = repeat false (length sorted) ->
   (exists c,
      List.find is_playAddr sorted = Some c /\ c ∈ videoSources /\
      type c = "playAddr" /\
      select_source videoSources st
        = (OK {| originalUrl := cleaned c; infoType := "playAddr (fallback)";
                 infoPriority := priority c |}, after_probes sorted st))
   \/ ((forall c, c ∈ videoSources -> type c <> "playAddr") /\
       select_source videoSources st
         = (Throw NoAccessibleSource, after_probes sorted st)))
  /\ (fst (select_source videoSources st) = Throw NoAccessibleSource <->
      probe_answers (map cleaned sorted) (net st) = repeat false (length sorted)
      /\ forall c, c ∈ videoSources -> type c <> "playAddr").
Proof.
  intros Hne Hstr sorted.
  pose proof (sorted_string_urls videoSources Hstr) as Hstr'. fold sorted in Hstr'.
  assert (Hmem : forall c, c ∈ sorted <-> c ∈ videoSources).
  { intros c. unfold sorted.
    now rewrite <- (SortFacts.sort_perm videoSources). }
  assert (Hfallback :
            probe_answers (map cleaned sorted) (net st)
              = repeat false (length sorted) ->
            (exists c,
               List.find is_playAddr sorted = Some c /\ c ∈ videoSources /\
               type c = "playAddr" /\
               select_source videoSources st
                 = (OK (fallen_back c), after_probes sorted st))
            \/ ((forall c, c ∈ videoSources -> type c <> "playAddr") /\
                select_source videoSources st
                  = (Throw NoAccessibleSource, after_probes sorted st))).
  { intros Hans. rewrite select_source_cons by exact Hne. fold sorted.
    rewrite (probe_loop_failed sorted st Hstr' Hans).
    destruct (fallback_source_spec sorted Hstr')
      as [(c & Hfind & Hin & Hty & ->) | [Hnone ->]].
    - left. exists c. repeat split; auto. now apply Hmem.
    - right. split; [|reflexivity]. intros c Hc. now apply Hnone, Hmem. }
  split; [exact Hfallback|]. split.
  - intros Hthrow.
    destruct (first_answer sorted st)
      as [Hall | [(pre & c & post & Hsplit & Hans)
                 | (pre & c & post & Hsplit & Hans & Hrefused)]].
    + split; [exact Hall|].
      destruct (Hfallback Hall) as [(c & _ & _ & _ & Hsel) | [Hnone _]];
        [|exact Hnone].
      rewrite Hsel in Hthrow. discriminate.
    + exfalso. rewrite select_source_cons in Hthrow by exact Hne.
      fold sorted in Hthrow. rewrite Hsplit in Hthrow, Hstr'.
      rewrite (probe_loop_found pre c post st) in Hthrow;
        [discriminate | | exact Hans].
      rewrite forallb_app in Hstr'. rewrite forallb_app.
      cbn [forallb] in *.
      apply andb_true_iff in Hstr' as [Hpre Hc].
      apply andb_true_iff in Hc as [Hc _]. now rewrite Hpre, Hc.
    + exfalso. rewrite select_source_cons in Hthrow by exact Hne.
      fold sorted in Hthrow. rewrite Hsplit in Hthrow, Hstr'.
      rewrite (probe_loop_refused pre c post st) in Hthrow;
        [discriminate | | exact Hans | exact Hrefused].
      rewrite forallb_app in Hstr'. rewrite forallb_app.
      cbn [forallb] in *.
      apply andb_true_iff in Hstr' as [Hpre Hc].
      apply andb_true_iff in Hc as [Hc _]. now rewrite Hpre, Hc.
  - intros [Hall Hnone].
    destruct (Hfallback Hall) as [(c & _ & Hin & Hty & _) | [_ ->]];
      [|reflexivity].
    now apply Hnone in Hin.
Qed.

Lemma playAddr_fallback_witness :
  fst (select_source (H := nothing_reachable) sample_sources
         (initial (H := nothing_reachable) tt))
  = OK {| originalUrl := sample_playAddr_clean;
          infoType := "playAddr (fallback)"; infoPriority := 3 |}.
Proof.
  assert (Hne : sample_sources <> []) by discriminate.
  destruct (playAddr_fallback (H := nothing_reachable) sample_sources
              (initial (H := nothing_reachable) tt) Hne eq_refl)
    as [Hfallback _].
  destruct (Hfallback eq_refl) as [(c & Hfind & _ & _ & Hsel) | [Hnone _]].
  - injection Hfind as <-. rewrite Hsel. reflexivity.
  - exfalso.
    apply (Hnone {| url := JStr sample_playAddr; type := "playAddr";
                    priority := 3; quality := None |}); [|reflexivity].
    apply list_elem_of_In. cbn. tauto.
Defined.

(** X22.  A URL that [https.request] refuses stops the selection: once the
    sources before [c] in the order of priorities have had their probes
    answered [false], the probe of [c] rejects and the selection throws a
    [TypeError], whatever comes after [c]; neither a later source nor the
    fallback is tried, and no probe of [c] is recorded. *)
Theorem refused_url_stops_selection `{Network}
    (videoSources pre : list VideoSource) (c : VideoSource)
    (post : list VideoSource) (st : state) :
  sort_by_priority videoSources = pre ++ c :: post ->
  forallb string_url (pre ++ [c]) = true ->
  probe_answers (map cleaned pre) (net st) = repeat false (length pre) ->
  refused (fst (httpsRequest (cleaned c) (net (after_probes pre st)))) = true ->
  select_source videoSources st = (Throw TypeError, after_probes pre st)
  /\ probed (after_probes pre st) = probed st ++ map failed_probe pre.
Proof.
  intros Hsorted Hstr Hans Hrefused. split.
  - rewrite select_source_cons by (intros ->; now destruct pre).
    rewrite Hsorted.
    now rewrite (probe_loop_refused pre c post st Hstr Hans Hrefused).
  - unfold after_probes. cbn [probed]. now rewrite Hans, combine_all_failed.
Qed.

Lemma refused_url_stops_selection_witness :
  select_source (H := all_reachable) unusable_first
    (initial (H := all_reachable) tt)
  = (Throw TypeError, initial (H := all_reachable) tt).
Proof.
  destruct (refused_url_stops_selection (H := all_reachable) unusable_first []
              {| url := JStr NOT_A_URL; type := "downloadAddr"; priority := 1;
                 quality := None |}
              [ {| url := JStr sample_playAddr; type := "playAddr";
                   priority := 3; quality := None |} ]
              (initial (H := all_reachable) tt)
              eq_refl eq_refl eq_refl eq_refl) as [Hsel _].
  exact Hsel.
Defined.

(** X23.  A response of status 200 whose body breaks off leaves the promise
    of [downloadVideo] pending, since only the request has an ['error']
    handler: no number of requests settles the download, and when it is
    the download of the first attempt, [tryMultipleDownloads] never
    returns. *)
Theorem cut_body_leaves_download_pending `{Network} (u filename : string)
    (st : state) :
  fst (httpsGet u (net st)) = GetBodyCut ->
  (forall fuel, downloadVideo fuel u filename st = None)
  /\ (forall fuel videoInfo name,
        originalUrl videoInfo = u ->
        tryMultipleDownloads fuel videoInfo name st = None).
Proof.
  intros Hcut. split.
  - intros fuel. now apply body_cut_never_settles.
  - intros fuel videoInfo name <-. unfold tryMultipleDownloads, plan_attempts.
    cbn [app attempt_loop]. unfold attempt_once. cbn [attemptUrl].
    now rewrite body_cut_never_settles.
Qed.

Lemma cut_body_leaves_download_pending_witness :
  tryMultipleDownloads (H := original_cut) 1000 sample_info
    "7535517022529047830.mp4" (initial (H := original_cut) tt) = None.
Proof.
  destruct (cut_body_leaves_download_pending (H := original_cut)
              sample_playAddr_clean "7535517022529047830.mp4"
              (initial (H := original_cut) tt) eq_refl) as [_ Hloop].
  now apply Hloop.
Defined.
